(** * Cricket auction simulator: the auction engine, embedded and verified

    A shallow embedding of the TypeScript auction engine:
    - [src/domain/types.ts]           the data model and the constants,
                                      and, in its second half, the bid
                                      calculator (heuristic recommendation),
    - [src/domain/squadValidator.ts]  the constraint validation engine,
    - [src/domain/auctionRules.ts]    bid validation and sale bookkeeping,
    - [src/hooks/useAuction.ts]       the reducer (the auction state machine).

    Conventions of the embedding.
    - A JavaScript [number] that holds money, a time, a count or a length is
      an integer [Z] (the two agree below 2^53).
    - The other numbers -- player statistics and the multipliers and
      estimates of the recommendation engine -- are IEEE 754 doubles.  A
      finite double is a rational, so they are values of [Q]; what makes them
      doubles is that every decimal literal, sum and product of the source is
      rounded to 53 significant bits, nearest with ties to even, by [fl].
      Comparisons, [Math.min] and [Math.round] are exact on doubles and are
      computed on the rational value; [Math.round x] is [Qfloor (x + 1/2)].
      The exponent range is not modelled (no overflow to [Infinity], no
      subnormals): neither is reached from prices below 2^53.
    - Strings are [string]; template literals are rendered with [pretty].
    - [new Map(entries)] is a [gmap] filled left to right, so a later entry
      with the same key replaces an earlier one, as in JavaScript.
    - A [Partial<Record<PlayerRole, number>>] is a [gmap PlayerRole Z].
    - [console.warn] is modelled by a writer: the reducer returns the next
      state together with the lines it logged. *)

From stdpp Require Import gmap strings list fin_maps pretty.
From Stdlib Require Import ZArith QArith Qround Qpower Lia Lqa.
From Stdlib Require Import Floats.

Open Scope Z_scope.

(* ====================================================================== *)
(** ** Player domain ([types.ts]) *)
(* ====================================================================== *)

Inductive PlayerRole : Type :=
  | batter
  | bowler
  | all_rounder
  | wicket_keeper.

Inductive PlayerNationality : Type :=
  | domestic
  | overseas.

#[global] Instance PlayerRole_eq_dec : EqDecision PlayerRole.
Proof. solve_decision. Defined.

#[global] Instance PlayerNationality_eq_dec : EqDecision PlayerNationality.
Proof. solve_decision. Defined.

Definition role_code (r : PlayerRole) : nat :=
  match r with
  | batter => 0 | bowler => 1 | all_rounder => 2 | wicket_keeper => 3
  end%nat.

Definition role_of_code (n : nat) : PlayerRole :=
  match n with
  | 0 => batter | 1 => bowler | 2 => all_rounder | _ => wicket_keeper
  end%nat.

#[global] Instance PlayerRole_countable : Countable PlayerRole.
Proof.
  refine (inj_countable' role_code role_of_code _).
  intros r; destruct r; reflexivity.
Defined.

(** The string a role interpolates to inside a template literal. *)
Definition role_string (r : PlayerRole) : string :=
  match r with
  | batter => "batter"
  | bowler => "bowler"
  | all_rounder => "all-rounder"
  | wicket_keeper => "wicket-keeper"
  end.

Record PlayerStats : Type := mkPlayerStats {
  matches : Z;
  battingAverage : option Q;
  bowlingAverage : option Q;
  strikeRate : option Q;
  economyRate : option Q
}.

Record Player : Type := mkPlayer {
  player_id : string;
  player_name : string;
  role : PlayerRole;
  nationality : PlayerNationality;
  basePrice : Z;
  stats : PlayerStats
}.

(* ====================================================================== *)
(** ** Team domain *)
(* ====================================================================== *)

Record Team : Type := mkTeam {
  team_id : string;
  team_name : string;
  shortName : string;
  budget : Z;
  primaryColor : string
}.

Record AcquiredPlayer : Type := mkAcquiredPlayer {
  playerId : string;
  purchasePrice : Z
}.

Record TeamState : Type := mkTeamState {
  teamId : string;
  remainingBudget : Z;
  squad : list AcquiredPlayer
}.

(* ====================================================================== *)
(** ** Squad constraints *)
(* ====================================================================== *)

Record RoleLimit : Type := mkRoleLimit {
  role_min : Z;
  role_max : Z
}.

Record SquadConstraints : Type := mkSquadConstraints {
  minSquadSize : Z;
  maxSquadSize : Z;
  maxOverseasPlayers : Z;
  roleConstraints : PlayerRole -> RoleLimit
}.

Definition DEFAULT_SQUAD_CONSTRAINTS : SquadConstraints :=
  {| minSquadSize := 15;
     maxSquadSize := 25;
     maxOverseasPlayers := 8;
     roleConstraints := fun r =>
       match r with
       | batter => mkRoleLimit 3 8
       | bowler => mkRoleLimit 3 8
       | all_rounder => mkRoleLimit 2 6
       | wicket_keeper => mkRoleLimit 1 3
       end |}.

Module AUCTION_CONSTANTS.
Definition INITIAL_BID_TIME : Z := 60.
Definition BID_INCREMENT_MIN : Z := 5.
Definition TIME_EXTENSION_ON_BID : Z := 15.
Definition MAX_TIME_EXTENSION : Z := 60.
End AUCTION_CONSTANTS.

(* ====================================================================== *)
(** ** Auction state: one variant per phase *)
(* ====================================================================== *)

Record CurrentBid : Type := mkCurrentBid {
  bid_teamId : string;
  amount : Z
}.

Record BiddingAuctionState : Type := mkBidding {
  currentPlayer : Player;
  currentBid : option CurrentBid;
  timeRemaining : Z;
  bidding_completedPlayerIds : list string;
  bidding_teams : list TeamState;
  bidding_message : option string
}.

Inductive AuctionState : Type :=
  | IdleState (completed : list string) (ts : list TeamState)
              (msg : option string)
  | BiddingState (b : BiddingAuctionState)
  | SoldState (soldPlayer : Player) (winningBid : CurrentBid)
              (completed : list string) (ts : list TeamState)
              (msg : option string)
  | UnsoldState (unsoldPlayer : Player)
                (completed : list string) (ts : list TeamState)
                (msg : option string)
  | CompletedState (completed : list string) (ts : list TeamState)
                   (msg : option string).

Inductive AuctionPhase : Type :=
  | idle | bidding | sold | unsold | completed.

(** The fields every variant carries. *)
Definition phase (s : AuctionState) : AuctionPhase :=
  match s with
  | IdleState _ _ _ => idle
  | BiddingState _ => bidding
  | SoldState _ _ _ _ _ => sold
  | UnsoldState _ _ _ _ => unsold
  | CompletedState _ _ _ => completed
  end.

Definition completedPlayerIds (s : AuctionState) : list string :=
  match s with
  | IdleState c _ _ => c
  | BiddingState b => bidding_completedPlayerIds b
  | SoldState _ _ c _ _ => c
  | UnsoldState _ c _ _ => c
  | CompletedState c _ _ => c
  end.

Definition teams (s : AuctionState) : list TeamState :=
  match s with
  | IdleState _ t _ => t
  | BiddingState b => bidding_teams b
  | SoldState _ _ _ t _ => t
  | UnsoldState _ _ t _ => t
  | CompletedState _ t _ => t
  end.

Definition message (s : AuctionState) : option string :=
  match s with
  | IdleState _ _ m => m
  | BiddingState b => bidding_message b
  | SoldState _ _ _ _ m => m
  | UnsoldState _ _ _ m => m
  | CompletedState _ _ m => m
  end.

Inductive AuctionAction : Type :=
  | START_BIDDING (player : Player)
  | PLACE_BID (team : string) (bidAmount : Z)
  | INVALID_BID (reason : string)
  | TIME_EXPIRED
  | PLAYER_SOLD
  | PLAYER_UNSOLD
  | RESET_TO_IDLE
  | TIMER_TICK.

(* ====================================================================== *)
(** ** Validation types *)
(* ====================================================================== *)

Inductive ValidationErrorCode : Type :=
  | INSUFFICIENT_BUDGET
  | SQUAD_FULL
  | ROLE_LIMIT_EXCEEDED
  | OVERSEAS_LIMIT_EXCEEDED
  | BID_TOO_LOW
  | NOT_YOUR_TURN
  | AUCTION_NOT_ACTIVE.

(** A value stored in the [context] record of an error. *)
Inductive ContextValue : Type :=
  | CNum (z : Z)
  | CStr (s : string).

Record ValidationError : Type := mkValidationError {
  code : ValidationErrorCode;
  error_message : string;
  context : list (string * ContextValue)
}.

Inductive ValidationResult : Type :=
  | Valid
  | Invalid (errors : list ValidationError).

Definition isValid (r : ValidationResult) : bool :=
  match r with
  | Valid => true
  | Invalid _ => false
  end.

(** [r.errors]; read only after [isValid] was seen to be false. *)
Definition errors_of (r : ValidationResult) : list ValidationError :=
  match r with
  | Valid => []
  | Invalid es => es
  end.

(* ====================================================================== *)
(** ** Constraint primitives ([squadValidator.ts]) *)
(* ====================================================================== *)

(** [new Map(allPlayers.map(p => [p.id, p]))]. *)
Definition playerMap (allPlayers : list Player) : gmap string Player :=
  foldl (fun m p => <[player_id p := p]> m) ∅ allPlayers.

Definition countPlayersByRole
    (sq : list AcquiredPlayer) (allPlayers : list Player)
    : gmap PlayerRole Z :=
  let pm := playerMap allPlayers in
  foldl (fun counts acquired =>
           match pm !! playerId acquired with
           | Some player =>
               let currentCount := default 0 (counts !! role player) in
               <[role player := currentCount + 1]> counts
           | None => counts
           end) ∅ sq.

Definition countOverseasPlayers
    (sq : list AcquiredPlayer) (allPlayers : list Player) : Z :=
  let pm := playerMap allPlayers in
  Z.of_nat (length (List.filter (fun acquired =>
      match pm !! playerId acquired with
      | Some player => bool_decide (nationality player = overseas)
      | None => false
      end) sq)).

(* ====================================================================== *)
(** ** Validation engine ([squadValidator.ts]) *)
(* ====================================================================== *)

Definition validateBudget (teamState : TeamState) (bidAmount : Z)
    : ValidationResult :=
  if bidAmount >? remainingBudget teamState then
    Invalid
      [ {| code := INSUFFICIENT_BUDGET;
           error_message :=
             "Insufficient budget. Required: ₹" +:+ pretty bidAmount
             +:+ "L, Available: ₹" +:+ pretty (remainingBudget teamState)
             +:+ "L";
           context :=
             [ ("required", CNum bidAmount);
               ("available", CNum (remainingBudget teamState));
               ("shortfall", CNum (bidAmount - remainingBudget teamState)) ]
        |} ]
  else Valid.

Definition validateSquadSize
    (teamState : TeamState) (constraints : SquadConstraints)
    : ValidationResult :=
  if Z.of_nat (length (squad teamState)) >=? maxSquadSize constraints then
    Invalid
      [ {| code := SQUAD_FULL;
           error_message :=
             "Squad is full. Maximum " +:+ pretty (maxSquadSize constraints)
             +:+ " players allowed.";
           context :=
             [ ("currentSize", CNum (Z.of_nat (length (squad teamState))));
               ("maxSize", CNum (maxSquadSize constraints)) ]
        |} ]
  else Valid.

Definition validateRoleLimits
    (teamState : TeamState) (newPlayer : Player)
    (allPlayers : list Player) (constraints : SquadConstraints)
    : ValidationResult :=
  let roleCount := countPlayersByRole (squad teamState) allPlayers in
  let currentCount := default 0 (roleCount !! role newPlayer) in
  let maxForRole := role_max (roleConstraints constraints (role newPlayer)) in
  if currentCount >=? maxForRole then
    Invalid
      [ {| code := ROLE_LIMIT_EXCEEDED;
           error_message :=
             "Cannot add more " +:+ role_string (role newPlayer)
             +:+ "s. Maximum " +:+ pretty maxForRole
             +:+ " allowed, currently have " +:+ pretty currentCount +:+ ".";
           context :=
             [ ("role", CStr (role_string (role newPlayer)));
               ("currentCount", CNum currentCount);
               ("maxCount", CNum maxForRole) ]
        |} ]
  else Valid.

Definition validateOverseasLimits
    (teamState : TeamState) (newPlayer : Player)
    (allPlayers : list Player) (constraints : SquadConstraints)
    : ValidationResult :=
  if negb (bool_decide (nationality newPlayer = overseas)) then Valid
  else
    let overseasCount := countOverseasPlayers (squad teamState) allPlayers in
    if overseasCount >=? maxOverseasPlayers constraints then
      Invalid
        [ {| code := OVERSEAS_LIMIT_EXCEEDED;
             error_message :=
               "Cannot add more overseas players. Maximum "
               +:+ pretty (maxOverseasPlayers constraints)
               +:+ " allowed, currently have " +:+ pretty overseasCount
               +:+ ".";
             context :=
               [ ("currentCount", CNum overseasCount);
                 ("maxCount", CNum (maxOverseasPlayers constraints)) ]
          |} ]
    else Valid.

(** [errors.push(...r.errors)] guarded by [!r.isValid]: the array after
    the statement, given the array before it. *)
Definition push_errors_unless_valid
    (errors : list ValidationError) (r : ValidationResult)
    : list ValidationError :=
  if negb (isValid r) then errors ++ errors_of r else errors.

(** The [errors] array is threaded through the four checks in program
    order; [constraints] is passed explicitly (the source defaults it to
    [DEFAULT_SQUAD_CONSTRAINTS]). *)
Definition validatePlayerAcquisitionWith
    (teamState : TeamState) (player : Player) (bidAmount : Z)
    (allPlayers : list Player) (constraints : SquadConstraints)
    : ValidationResult :=
  let errors := [] in
  let budgetResult := validateBudget teamState bidAmount in
  let errors := push_errors_unless_valid errors budgetResult in
  let squadSizeResult := validateSquadSize teamState constraints in
  let errors := push_errors_unless_valid errors squadSizeResult in
  let roleResult :=
    validateRoleLimits teamState player allPlayers constraints in
  let errors := push_errors_unless_valid errors roleResult in
  let overseasResult :=
    validateOverseasLimits teamState player allPlayers constraints in
  let errors := push_errors_unless_valid errors overseasResult in
  if (length errors =? 0)%nat then Valid else Invalid errors.

(** The four-argument call, with the default constraints. *)
Definition validatePlayerAcquisition
    (teamState : TeamState) (player : Player) (bidAmount : Z)
    (allPlayers : list Player) : ValidationResult :=
  validatePlayerAcquisitionWith teamState player bidAmount allPlayers
    DEFAULT_SQUAD_CONSTRAINTS.

(* ====================================================================== *)
(** ** Auction rules ([auctionRules.ts]) *)
(* ====================================================================== *)

Definition getMinimumValidBid (state : BiddingAuctionState) : Z :=
  match currentBid state with
  | None => basePrice (currentPlayer state)
  | Some bid => amount bid + AUCTION_CONSTANTS.BID_INCREMENT_MIN
  end.

Definition validateBid
    (state : BiddingAuctionState) (team : string) (bidAmount : Z)
    (allPlayers : list Player) : ValidationResult :=
  match find (fun t => bool_decide (teamId t = team)) (bidding_teams state) with
  | None =>
      Invalid
        [ {| code := NOT_YOUR_TURN;
             error_message := "Team not found in auction.";
             context := [ ("teamId", CStr team) ] |} ]
  | Some teamState =>
      let minValidBid := getMinimumValidBid state in
      if bidAmount <? minValidBid then
        Invalid
          [ {| code := BID_TOO_LOW;
               error_message :=
                 "Bid must be at least ₹" +:+ pretty minValidBid
                 +:+ "L. Minimum increment is ₹"
                 +:+ pretty AUCTION_CONSTANTS.BID_INCREMENT_MIN +:+ "L.";
               context :=
                 [ ("bidAmount", CNum bidAmount);
                   ("minimumRequired", CNum minValidBid);
                   ("increment", CNum AUCTION_CONSTANTS.BID_INCREMENT_MIN) ]
            |} ]
      else
        validatePlayerAcquisition teamState (currentPlayer state)
          bidAmount allPlayers
  end.

Definition calculateTimeAfterBid (currentTime : Z) : Z :=
  let extended := currentTime + AUCTION_CONSTANTS.TIME_EXTENSION_ON_BID in
  Z.min extended AUCTION_CONSTANTS.MAX_TIME_EXTENSION.

Definition finalizePlayerPurchase
    (teamState : TeamState) (pid : string) (price : Z) : TeamState :=
  {| teamId := teamId teamState;
     remainingBudget := remainingBudget teamState - price;
     squad := squad teamState ++ [ mkAcquiredPlayer pid price ] |}.

Definition updateTeamsAfterSale
    (ts : list TeamState) (winningTeamId : string)
    (pid : string) (price : Z) : list TeamState :=
  map (fun team =>
         if bool_decide (teamId team = winningTeamId)
         then finalizePlayerPurchase team pid price
         else team) ts.

(* ====================================================================== *)
(** ** The reducer ([useAuction.ts]) *)
(* ====================================================================== *)

(** A value together with the console lines written while computing it. *)
Definition Logged (A : Type) : Type := (A * list string)%type.

Definition silent {A : Type} (a : A) : Logged A := (a, []).
Definition warn {A : Type} (line : string) (a : A) : Logged A := (a, [line]).

(** The state a sale produces; shared by [TIME_EXPIRED] and [PLAYER_SOLD],
    whose object literals are identical in the source. *)
Definition soldStateOf (b : BiddingAuctionState) (bid : CurrentBid)
    : AuctionState :=
  SoldState
    (currentPlayer b)
    bid
    (bidding_completedPlayerIds b ++ [ player_id (currentPlayer b) ])
    (updateTeamsAfterSale (bidding_teams b) (bid_teamId bid)
       (player_id (currentPlayer b)) (amount bid))
    (Some ("SOLD! " +:+ player_name (currentPlayer b) +:+ " to "
           +:+ bid_teamId bid +:+ " for ₹" +:+ pretty (amount bid) +:+ "L")).

Definition auctionReducerLogged (state : AuctionState) (action : AuctionAction)
    : Logged AuctionState :=
  match action with
  | START_BIDDING player =>
      match state with
      | IdleState history ts _ =>
          silent (BiddingState
            {| currentPlayer := player;
               currentBid := None;
               timeRemaining := AUCTION_CONSTANTS.INITIAL_BID_TIME;
               bidding_completedPlayerIds := history;
               bidding_teams := ts;
               bidding_message :=
                 Some ("Bidding started for " +:+ player_name player) |})
      | _ => warn "Cannot start bidding: not in idle state" state
      end
  | PLACE_BID team bidAmount =>
      match state with
      | BiddingState b =>
          silent (BiddingState
            {| currentPlayer := currentPlayer b;
               currentBid := Some (mkCurrentBid team bidAmount);
               timeRemaining := calculateTimeAfterBid (timeRemaining b);
               bidding_completedPlayerIds := bidding_completedPlayerIds b;
               bidding_teams := bidding_teams b;
               bidding_message :=
                 Some (team +:+ " bids ₹" +:+ pretty bidAmount +:+ "L") |})
      | _ => warn "Cannot place bid: not in bidding state" state
      end
  | INVALID_BID reason =>
      match state with
      | BiddingState b =>
          silent (BiddingState
            {| currentPlayer := currentPlayer b;
               currentBid := currentBid b;
               timeRemaining := timeRemaining b;
               bidding_completedPlayerIds := bidding_completedPlayerIds b;
               bidding_teams := bidding_teams b;
               bidding_message := Some ("Invalid bid: " +:+ reason) |})
      | _ => silent state
      end
  | TIMER_TICK =>
      match state with
      | BiddingState b =>
          let newTime := timeRemaining b - 1 in
          silent (BiddingState
            {| currentPlayer := currentPlayer b;
               currentBid := currentBid b;
               timeRemaining := if newTime <=? 0 then 0 else newTime;
               bidding_completedPlayerIds := bidding_completedPlayerIds b;
               bidding_teams := bidding_teams b;
               bidding_message := bidding_message b |})
      | _ => silent state
      end
  | TIME_EXPIRED =>
      match state with
      | BiddingState b =>
          match currentBid b with
          | Some bid => silent (soldStateOf b bid)
          | None =>
              silent (UnsoldState
                (currentPlayer b)
                (bidding_completedPlayerIds b
                   ++ [ player_id (currentPlayer b) ])
                (bidding_teams b)
                (Some ("UNSOLD! " +:+ player_name (currentPlayer b)
                       +:+ " received no bids")))
          end
      | _ => silent state
      end
  | PLAYER_SOLD =>
      match state with
      | BiddingState b =>
          match currentBid b with
          | None => silent state
          | Some bid => silent (soldStateOf b bid)
          end
      | _ => silent state
      end
  | PLAYER_UNSOLD =>
      match state with
      | BiddingState b =>
          silent (UnsoldState
            (currentPlayer b)
            (bidding_completedPlayerIds b ++ [ player_id (currentPlayer b) ])
            (bidding_teams b)
            (Some ("UNSOLD! " +:+ player_name (currentPlayer b)
                   +:+ " - passed")))
      | _ => silent state
      end
  | RESET_TO_IDLE =>
      silent (IdleState (completedPlayerIds state) (teams state) None)
  end.

(** The value the reducer returns. *)
Definition auctionReducer (state : AuctionState) (action : AuctionAction)
    : AuctionState :=
  fst (auctionReducerLogged state action).

Definition createInitialState (ts : list Team) : AuctionState :=
  let teamStates :=
    map (fun team =>
           {| teamId := team_id team;
              remainingBudget := budget team;
              squad := [] |}) ts in
  IdleState [] teamStates
    (Some "Welcome to the auction! Select a player to begin.").

(** [placeBid] of the hook: the only place that dispatches [PLACE_BID],
    and only after [validateBid] accepted the bid on the current state. *)
Definition placeBid
    (allPlayers : list Player) (state : AuctionState)
    (team : string) (bidAmount : Z) : AuctionAction :=
  match state with
  | BiddingState b =>
      let validation := validateBid b team bidAmount allPlayers in
      if negb (isValid validation) then
        INVALID_BID
          (match errors_of validation with
           | e :: _ => error_message e
           | [] => "Invalid bid"
           end)
      else PLACE_BID team bidAmount
  | _ => INVALID_BID "Auction not active"
  end.

(** [getMinBid] of the hook's query surface. *)
Definition getMinBid (state : AuctionState) : option Z :=
  match state with
  | BiddingState b => Some (getMinimumValidBid b)
  | _ => None
  end.

(* ====================================================================== *)
(** ** Bid calculator (second half of [types.ts]) *)
(* ====================================================================== *)

Inductive Impact : Type := Positive | Negative | Neutral.

Inductive Confidence : Type := Low | Medium | High.

#[global] Instance Impact_eq_dec : EqDecision Impact.
Proof. solve_decision. Defined.

(** The [explanation] text of a factor is display-only prose (it formats
    statistics with [toFixed]) and is not part of the embedding. *)
Record ReasoningFactor : Type := mkReasoningFactor {
  factor : string;
  impact : Impact
}.

Record BidRecommendation : Type := mkBidRecommendation {
  recommendedMaxBid : Z;
  confidence : Confidence;
  reasoning : list ReasoningFactor
}.

(** *** Double-precision arithmetic

    [binade x] is the position of the leading bit of a positive [x]:
    [2 ^ binade x <= x < 2 ^ (binade x + 1)]. *)
Definition binade (x : Q) : Z :=
  let e := Z.log2 (Qnum x) - Z.log2 (Zpos (Qden x)) in
  if Qle_bool (2 ^ e) x then e else e - 1.

(** The nearest integer, a tie going to the even neighbour. *)
Definition round_half_even (x : Q) : Z :=
  let f := Qfloor x in
  match (x - inject_Z f ?= 1 # 2)%Q with
  | Lt => f
  | Gt => f + 1
  | Eq => if Z.even f then f else f + 1
  end.

(** A positive [x] rounded to a multiple of its unit in the last place,
    [2 ^ (binade x - 52)]: 53 significant bits. *)
Definition round_to_53_bits (x : Q) : Q :=
  let ulp := (2 ^ (binade x - 52))%Q in
  (inject_Z (round_half_even (x / ulp)) * ulp)%Q.

(** The double nearest to [x] (round to nearest, ties to even), in lowest
    terms. *)
Definition fl (x : Q) : Q :=
  match (x ?= 0)%Q with
  | Eq => 0%Q
  | Gt => Qred (round_to_53_bits x)
  | Lt => Qred (- round_to_53_bits (- x))
  end.

(** [x + y] and [x * y] of the source, on doubles. *)
Definition fadd (x y : Q) : Q := fl (x + y).
Definition fmul (x y : Q) : Q := fl (x * y).

(** The rational value of one of Rocq's primitive binary64 floats, to
    compare [fl] with the arithmetic of the machine. *)
Definition Q_of_float (f : float) : option Q :=
  match Prim2SF f with
  | SpecFloat.S754_zero _ => Some 0%Q
  | SpecFloat.S754_finite negative m e =>
      Some (Qred ((if negative then -1 else 1) * inject_Z (Zpos m) * 2 ^ e))%Q
  | _ => None
  end.

(** [x > y] and [x < y] on rationals, as booleans. *)
Definition Qgtb (x y : Q) : bool := negb (Qle_bool x y).
Definition Qltb (x y : Q) : bool := negb (Qle_bool y x).

Definition Math_min (x y : Q) : Q := if Qle_bool x y then x else y.

(** [Math.round]: the nearest integer, halves rounded up. *)
Definition Math_round (x : Q) : Z := Qfloor (x + 0.5)%Q.

Definition calculateQualityMultiplier (player : Player) : Q :=
  let st := stats player in
  let multiplier := 1%Q in
  (* Experience factor *)
  let multiplier :=
    if matches st >? 100 then fadd multiplier (fl 0.3)
    else if matches st >? 50 then fadd multiplier (fl 0.15)
    else multiplier in
  (* Batting performance *)
  let multiplier :=
    match battingAverage st with
    | Some avg =>
        if Qgtb avg 40 then fadd multiplier (fl 0.4)
        else if Qgtb avg 30 then fadd multiplier (fl 0.2)
        else multiplier
    | None => multiplier
    end in
  (* Strike rate *)
  let multiplier :=
    match strikeRate st with
    | Some sr =>
        if Qgtb sr 150 then fadd multiplier (fl 0.3)
        else if Qgtb sr 130 then fadd multiplier (fl 0.15)
        else multiplier
    | None => multiplier
    end in
  (* Bowling performance *)
  let multiplier :=
    match bowlingAverage st with
    | Some avg =>
        if Qltb avg 20 then fadd multiplier (fl 0.4)
        else if Qltb avg 25 then fadd multiplier (fl 0.2)
        else multiplier
    | None => multiplier
    end in
  (* Economy rate *)
  let multiplier :=
    match economyRate st with
    | Some er =>
        if Qltb er 7 then fadd multiplier (fl 0.3)
        else if Qltb er 8 then fadd multiplier (fl 0.15)
        else multiplier
    | None => multiplier
    end in
  multiplier.

(** Case analysis on every threshold test of [calculateQualityMultiplier]:
    each case leaves a sum of literals. *)
Ltac quality_cases p :=
  let avg := fresh "avg" in
  let sr := fresh "sr" in
  let bowl := fresh "bowl" in
  let er := fresh "er" in
  unfold calculateQualityMultiplier; cbn zeta;
  destruct (matches (stats p) >? 100); [|destruct (matches (stats p) >? 50)];
  (destruct (battingAverage (stats p)) as [avg|];
     [destruct (Qgtb avg 40); [|destruct (Qgtb avg 30)]|]);
  (destruct (strikeRate (stats p)) as [sr|];
     [destruct (Qgtb sr 150); [|destruct (Qgtb sr 130)]|]);
  (destruct (bowlingAverage (stats p)) as [bowl|];
     [destruct (Qltb bowl 20); [|destruct (Qltb bowl 25)]|]);
  (destruct (economyRate (stats p)) as [er|];
     [destruct (Qltb er 7); [|destruct (Qltb er 8)]|]).

Definition calculateRoleScarcity
    (r : PlayerRole) (teamState : TeamState) (allPlayers : list Player) : Q :=
  let roleCount := countPlayersByRole (squad teamState) allPlayers in
  let current := default 0 (roleCount !! r) in
  let constraints := roleConstraints DEFAULT_SQUAD_CONSTRAINTS r in
  if current <? role_min constraints then
    let shortfall := role_min constraints - current in
    fadd 1 (fmul (inject_Z shortfall) (fl 0.2))
  else if current >=? role_max constraints then 0.5%Q
  else 1%Q.

Definition calculateOverseasMultiplier
    (teamState : TeamState) (allPlayers : list Player) : Q :=
  let overseasCount := countOverseasPlayers (squad teamState) allPlayers in
  let maxOverseas := maxOverseasPlayers DEFAULT_SQUAD_CONSTRAINTS in
  let slotsRemaining := maxOverseas - overseasCount in
  if slotsRemaining <=? 0 then 0%Q
  else if slotsRemaining <=? 2 then fl 0.8
  else 1%Q.

Definition calculateBudgetCap (teamState : TeamState) : Z :=
  let playersNeeded :=
    minSquadSize DEFAULT_SQUAD_CONSTRAINTS
    - Z.of_nat (length (squad teamState)) in
  if playersNeeded <=? 0 then
    (* Squad complete, can spend freely *)
    remainingBudget teamState
  else
    let reserveAmount := Z.max 0 ((playersNeeded - 1) * 20) in
    let spendableAmount := remainingBudget teamState - reserveAmount in
    Z.max 20 spendableAmount.

Definition impact_of_multiplier (m : Q) : Impact :=
  if Qgtb m 1 then Positive else if Qltb m 1 then Negative else Neutral.

Definition calculateConfidence (rs : list ReasoningFactor) : Confidence :=
  let positives :=
    length (List.filter (fun r => bool_decide (impact r = Positive)) rs) in
  let negatives :=
    length (List.filter (fun r => bool_decide (impact r = Negative)) rs) in
  if (2 <=? negatives)%nat then Low
  else if (2 <=? positives)%nat && (negatives =? 0)%nat then High
  else Medium.

(** The running estimate after the quality, scarcity, overseas and budget
    stages, together with the reasoning entries pushed so far: the body of
    [calculateBidRecommendation] up to the current-bid adjustment. *)
Definition estimateAfterBudgetCap
    (player : Player) (teamState : TeamState) (allPlayers : list Player)
    : Q * list ReasoningFactor :=
  let reasoning := [] in
  let recommendedBid := inject_Z (basePrice player) in
  (* Factor 1: player quality *)
  let qualityMultiplier := calculateQualityMultiplier player in
  let qualityAdjustedBid := fmul recommendedBid qualityMultiplier in
  let reasoning :=
    reasoning ++ [ mkReasoningFactor "Player Quality"
                     (impact_of_multiplier qualityMultiplier) ] in
  let recommendedBid := qualityAdjustedBid in
  (* Factor 2: role scarcity *)
  let scarcityMultiplier :=
    calculateRoleScarcity (role player) teamState allPlayers in
  let scarcityAdjustedBid := fmul recommendedBid scarcityMultiplier in
  let reasoning :=
    reasoning ++ [ mkReasoningFactor "Role Scarcity"
                     (impact_of_multiplier scarcityMultiplier) ] in
  let recommendedBid := scarcityAdjustedBid in
  (* Factor 3: overseas slot availability *)
  let '(recommendedBid, reasoning) :=
    if bool_decide (nationality player = overseas) then
      let overseasMultiplier :=
        calculateOverseasMultiplier teamState allPlayers in
      (fmul recommendedBid overseasMultiplier,
       reasoning ++ [ mkReasoningFactor "Overseas Slot"
                        (impact_of_multiplier overseasMultiplier) ])
    else (recommendedBid, reasoning) in
  (* Factor 4: budget constraint *)
  let budgetCap := calculateBudgetCap teamState in
  let originalRecommendation := recommendedBid in
  let recommendedBid := Math_min recommendedBid (inject_Z budgetCap) in
  let reasoning :=
    reasoning ++ [ mkReasoningFactor "Budget Constraint"
                     (if Qltb recommendedBid originalRecommendation
                      then Negative else Neutral) ] in
  (recommendedBid, reasoning).

Definition calculateBidRecommendation
    (player : Player) (teamState : TeamState) (allPlayers : list Player)
    (currentBidAmount : option Z) : BidRecommendation :=
  let '(recommendedBid, reasoning) :=
    estimateAfterBudgetCap player teamState allPlayers in
  (* Ensure recommendation is above current bid if there is one *)
  let '(recommendedBid, reasoning) :=
    match currentBidAmount with
    | Some cb =>
        if Qle_bool recommendedBid (inject_Z cb) then
          ((inject_Z cb + 5)%Q,
           reasoning ++ [ mkReasoningFactor "Current Bid" Neutral ])
        else (recommendedBid, reasoning)
    | None => (recommendedBid, reasoning)
    end in
  let conf := calculateConfidence reasoning in
  {| recommendedMaxBid := Math_round recommendedBid;
     confidence := conf;
     reasoning := reasoning |}.

(* ====================================================================== *)
(** ** Runs of the state machine *)
(* ====================================================================== *)

(** Dispatching a list of actions, oldest first. *)
Definition dispatchAll (s : AuctionState) (actions : list AuctionAction)
    : AuctionState :=
  fold_left auctionReducer actions s.

Definition placeBids (bids : list (string * Z)) : list AuctionAction :=
  map (fun bid => PLACE_BID bid.1 bid.2) bids.

(** One dispatch that respects the hook's discipline: a [PLACE_BID] is sent
    only for a bid [validateBid] accepted on the current bidding state (for
    whatever catalog the caller holds at that moment); every other action
    may be sent at any time. *)
Inductive dispatched : AuctionState -> AuctionAction -> Prop :=
  | dispatched_bid (b : BiddingAuctionState) (team : string) (bidAmount : Z)
                   (allPlayers : list Player) :
      isValid (validateBid b team bidAmount allPlayers) = true ->
      dispatched (BiddingState b) (PLACE_BID team bidAmount)
  | dispatched_START_BIDDING s player : dispatched s (START_BIDDING player)
  | dispatched_INVALID_BID s reason : dispatched s (INVALID_BID reason)
  | dispatched_TIME_EXPIRED s : dispatched s TIME_EXPIRED
  | dispatched_PLAYER_SOLD s : dispatched s PLAYER_SOLD
  | dispatched_PLAYER_UNSOLD s : dispatched s PLAYER_UNSOLD
  | dispatched_RESET_TO_IDLE s : dispatched s RESET_TO_IDLE
  | dispatched_TIMER_TICK s : dispatched s TIMER_TICK.

(** The states an auction over the team list [ts] can be in. *)
Inductive reachable (ts : list Team) : AuctionState -> Prop :=
  | reachable_initial : reachable ts (createInitialState ts)
  | reachable_dispatch (s : AuctionState) (a : AuctionAction) :
      reachable ts s -> dispatched s a ->
      reachable ts (auctionReducer s a).

(* ====================================================================== *)
(** ** Statements taken from the specification's wording *)
(* ====================================================================== *)

(** The phases in which the specification declares an action legal. *)
Definition declared_legal (a : AuctionAction) (ph : AuctionPhase) : bool :=
  match a, ph with
  | START_BIDDING _, idle => true
  | PLACE_BID _ _, bidding => true
  | INVALID_BID _, bidding => true
  | TIMER_TICK, bidding => true
  | TIME_EXPIRED, bidding => true
  | PLAYER_SOLD, bidding => true
  | PLAYER_UNSOLD, bidding => true
  | RESET_TO_IDLE, sold => true
  | RESET_TO_IDLE, unsold => true
  | _, _ => false
  end.

(** "An unsold-phase state in which every team's TeamState is unchanged and
    completedPlayerIds equals the previous list with the current player's
    id appended." *)
Definition unsold_outcome (b : BiddingAuctionState) (s' : AuctionState)
    : Prop :=
  phase s' = unsold
  /\ teams s' = bidding_teams b
  /\ completedPlayerIds s' =
       bidding_completedPlayerIds b ++ [ player_id (currentPlayer b) ].

(** What a sale does to one team: the winner pays and gains the player,
    everybody else is left alone. *)
Definition sale_effect (winner pid : string) (price : Z)
    (before after : TeamState) : Prop :=
  (teamId before = winner ->
     teamId after = teamId before
     /\ remainingBudget after = remainingBudget before - price
     /\ squad after = squad before ++ [ mkAcquiredPlayer pid price ])
  /\ (teamId before <> winner -> after = before).

(** "A sold-phase state in which team t's remainingBudget is reduced by
    exactly a, an AcquiredPlayer ... is appended to t's squad, every other
    team's TeamState is unchanged, and the current player's id is appended
    to completedPlayerIds exactly once." *)
Definition sold_outcome (b : BiddingAuctionState) (winner : string)
    (price : Z) (s' : AuctionState) : Prop :=
  phase s' = sold
  /\ completedPlayerIds s' =
       bidding_completedPlayerIds b ++ [ player_id (currentPlayer b) ]
  /\ length (teams s') = length (bidding_teams b)
  /\ forall (i : nat) (before : TeamState),
       bidding_teams b !! i = Some before ->
       exists after,
         teams s' !! i = Some after
         /\ sale_effect winner (player_id (currentPlayer b)) price
              before after.

(** The budget cap as the specification words it. *)
Definition spec_playersNeeded (teamState : TeamState) : Z :=
  Z.max 0 (minSquadSize DEFAULT_SQUAD_CONSTRAINTS
           - Z.of_nat (length (squad teamState))).

Definition spec_reserve (teamState : TeamState) : Z :=
  Z.max 0 ((spec_playersNeeded teamState - 1) * 20).

Definition spec_budgetCap (teamState : TeamState) : Z :=
  Z.max 20 (remainingBudget teamState - spec_reserve teamState).

(* ====================================================================== *)
(** ** Sample data used by the examples *)
(* ====================================================================== *)

Definition no_stats : PlayerStats := mkPlayerStats 0 None None None None.

Definition sample_player : Player :=
  mkPlayer "p-1" "R. Sharma" batter domestic 50 no_stats.

Definition sample_team (name : string) (funds : Z) : TeamState :=
  mkTeamState name funds [].

Definition sample_bidding (bid : option CurrentBid) (ts : list TeamState)
    : BiddingAuctionState :=
  mkBidding sample_player bid 30 [ "p-0" ] ts None.

(* ====================================================================== *)
(** ** Predicates and data used in the statements and proofs *)
(* ====================================================================== *)

(** The timer bound carried by every bidding-phase state of a run. *)
Definition timer_within_cap (s : AuctionState) : Prop :=
  match s with
  | BiddingState b => timeRemaining b <= 60
  | _ => True
  end.

(** The violations of the four checks, in program order. *)
Definition all_violations
    (teamState : TeamState) (player : Player) (bidAmount : Z)
    (allPlayers : list Player) (constraints : SquadConstraints)
    : list ValidationError :=
  errors_of (validateBudget teamState bidAmount)
  ++ errors_of (validateSquadSize teamState constraints)
  ++ errors_of (validateRoleLimits teamState player allPlayers constraints)
  ++ errors_of
       (validateOverseasLimits teamState player allPlayers constraints).

(** Which checks fail, read off the inputs. *)
Definition budget_fails (ts : TeamState) (amt : Z) : bool :=
  amt >? remainingBudget ts.
Definition squad_size_fails (ts : TeamState) (c : SquadConstraints) : bool :=
  Z.of_nat (length (squad ts)) >=? maxSquadSize c.
Definition role_limit_fails
    (ts : TeamState) (p : Player) (allPlayers : list Player)
    (c : SquadConstraints) : bool :=
  default 0 (countPlayersByRole (squad ts) allPlayers !! role p)
  >=? role_max (roleConstraints c (role p)).
Definition overseas_limit_fails
    (ts : TeamState) (p : Player) (allPlayers : list Player)
    (c : SquadConstraints) : bool :=
  bool_decide (nationality p = overseas)
  && (countOverseasPlayers (squad ts) allPlayers >=? maxOverseasPlayers c).

Definition code_if (failed : bool) (c : ValidationErrorCode)
    : list ValidationErrorCode :=
  if failed then [ c ] else [].

(** A squad of eight batters bought at 10 each, and its catalog. *)
Definition eight_batters : list Player :=
  map (fun n => mkPlayer ("b-" +:+ pretty n) "Batter" batter overseas 10
                  no_stats)
      [ 1; 2; 3; 4; 5; 6; 7; 8 ].

Definition full_of_batters (funds : Z) : TeamState :=
  mkTeamState "team-1" funds
    (map (fun p => mkAcquiredPlayer (player_id p) 10) eight_batters).

(** An overseas batter offered at 50. *)
Definition overseas_batter : Player :=
  mkPlayer "p-9" "D. Warner" batter overseas 50 no_stats.

(** The same player with another batting average. *)
Definition with_battingAverage (p : Player) (avg : Q) : Player :=
  {| player_id := player_id p;
     player_name := player_name p;
     role := role p;
     nationality := nationality p;
     basePrice := basePrice p;
     stats :=
       {| matches := matches (stats p);
          battingAverage := Some avg;
          bowlingAverage := bowlingAverage (stats p);
          strikeRate := strikeRate (stats p);
          economyRate := economyRate (stats p) |} |}.





Definition budgets_nonneg (ts : list TeamState) : Prop :=
  Forall (fun t => 0 <= remainingBudget t) ts.

(** Every team the current bid names can pay it. *)
Definition bid_affordable (s : AuctionState) : Prop :=
  match s with
  | BiddingState b =>
      match currentBid b with
      | Some bid =>
          Forall (fun t => teamId t = bid_teamId bid ->
                           amount bid <= remainingBudget t)
                 (bidding_teams b)
      | None => True
      end
  | _ => True
  end.

Definition auction_invariant (s : AuctionState) : Prop :=
  NoDup (map teamId (teams s))
  /\ budgets_nonneg (teams s)
  /\ bid_affordable s.

Definition sample_teams : list Team :=
  [ mkTeam "team-1" "Mumbai" "MUM" 500 "#004BA0";
    mkTeam "team-3" "Chennai" "CHE" 400 "#FFCB05" ].

(** One round: the player is put up, team-3 bids 120, the timer expires. *)
Definition sample_round : AuctionState :=
  auctionReducer
    (auctionReducer
       (auctionReducer (createInitialState sample_teams)
          (START_BIDDING sample_player))
       (PLACE_BID "team-3" 120))
    TIME_EXPIRED.

(* ====================================================================== *)
(** ** More of the auction rules ([auctionRules.ts]) *)
(* ====================================================================== *)

Definition getSuggestedBidIncrements (currentAmount : Z) : list Z :=
  if currentAmount <? 100 then [ 5; 10; 20 ]
  else if currentAmount <? 500 then [ 10; 25; 50 ]
  else if currentAmount <? 1000 then [ 25; 50; 100 ]
  else [ 50; 100; 200 ].

Definition createBidUpdate (team : string) (bidAmount : Z) : CurrentBid :=
  {| bid_teamId := team; amount := bidAmount |}.

Definition getTeamState (ts : list TeamState) (team : string)
    : option TeamState :=
  find (fun t => bool_decide (teamId t = team)) ts.

Definition canTeamBid
    (teamState : TeamState) (minBidAmount : Z) (player : Player)
    (allPlayers : list Player) : bool :=
  (* Quick budget check *)
  let budgetResult := validateBudget teamState minBidAmount in
  if negb (isValid budgetResult) then false
  else
    (* Full validation check *)
    let fullResult :=
      validatePlayerAcquisition teamState player minBidAmount allPlayers in
    isValid fullResult.

Definition getEligibleBidders
    (state : BiddingAuctionState) (allPlayers : list Player) : list string :=
  let minBid := getMinimumValidBid state in
  map teamId
    (List.filter
       (fun team => canTeamBid team minBid (currentPlayer state) allPlayers)
       (bidding_teams state)).


(* ====================================================================== *)
(** ** More of the squad validator ([squadValidator.ts]) *)
(* ====================================================================== *)

(** [Object.entries(constraints.roleConstraints)] lists the entries in the
    key order of the object it is given.  [roleConstraints] is a function of
    the role and does not record that order, so it is passed along as
    [keys]. *)
Definition Object_entries
    (keys : list PlayerRole) (constraints : SquadConstraints)
    : list (PlayerRole * RoleLimit) :=
  map (fun r => (r, roleConstraints constraints r)) keys.

(** The key order of [DEFAULT_SQUAD_CONSTRAINTS.roleConstraints], as the
    object is written in [types.ts]. *)
Definition DEFAULT_ROLE_KEYS : list PlayerRole :=
  [ batter; bowler; all_rounder; wicket_keeper ].

(** The entries as [getSquadSummary] consumes them: it stores one entry per
    role in a record keyed by the role, which comes out the same for every
    order of the four keys. *)
Definition role_entries (constraints : SquadConstraints)
    : list (PlayerRole * RoleLimit) :=
  map (fun r => (r, roleConstraints constraints r))
      [ batter; bowler; all_rounder; wicket_keeper ].

(** [keys] is the key order of [constraints.roleConstraints]; the role
    errors are pushed in that order. *)
Definition validateMinimumSquadRequirements
    (teamState : TeamState) (allPlayers : list Player)
    (keys : list PlayerRole) (constraints : SquadConstraints)
    : ValidationResult :=
  let errors := [] in
  (* Check minimum squad size *)
  let errors :=
    if Z.of_nat (length (squad teamState)) <? minSquadSize constraints then
      errors ++
      [ {| code := SQUAD_FULL;
           error_message :=
             "Squad too small. Minimum " +:+ pretty (minSquadSize constraints)
             +:+ " players required, have "
             +:+ pretty (Z.of_nat (length (squad teamState))) +:+ ".";
           context :=
             [ ("currentSize", CNum (Z.of_nat (length (squad teamState))));
               ("minSize", CNum (minSquadSize constraints)) ] |} ]
    else errors in
  (* Check minimum role requirements *)
  let roleCount := countPlayersByRole (squad teamState) allPlayers in
  let errors :=
    fold_left
      (fun errors entry =>
         let r := entry.1 in
         let limits := entry.2 in
         let currentCount := default 0 (roleCount !! r) in
         if currentCount <? role_min limits then
           errors ++
           [ {| code := ROLE_LIMIT_EXCEEDED;
                error_message :=
                  "Need at least " +:+ pretty (role_min limits) +:+ " "
                  +:+ role_string r +:+ "(s), have " +:+ pretty currentCount
                  +:+ ".";
                context :=
                  [ ("role", CStr (role_string r));
                    ("currentCount", CNum currentCount);
                    ("minCount", CNum (role_min limits)) ] |} ]
         else errors)
      (Object_entries keys constraints) errors in
  if (length errors =? 0)%nat then Valid else Invalid errors.

Record RoleBreakdown : Type := mkRoleBreakdown {
  rb_current : Z;
  rb_min : Z;
  rb_max : Z
}.

Record SquadSummary : Type := mkSquadSummary {
  totalPlayers : Z;
  maxPlayers : Z;
  overseasCount : Z;
  maxOverseas : Z;
  roleBreakdown : gmap PlayerRole RoleBreakdown;
  budgetUsed : Z;
  budgetRemaining : Z
}.

Definition getSquadSummary
    (teamState : TeamState) (allPlayers : list Player)
    (constraints : SquadConstraints) : SquadSummary :=
  let roleCount := countPlayersByRole (squad teamState) allPlayers in
  let roleBreakdown :=
    fold_left
      (fun breakdown entry =>
         let r := entry.1 in
         let limits := entry.2 in
         <[ r := {| rb_current := default 0 (roleCount !! r);
                    rb_min := role_min limits;
                    rb_max := role_max limits |} ]> breakdown)
      (role_entries constraints) ∅ in
  let totalSpent :=
    fold_left (fun sum p => sum + purchasePrice p) (squad teamState) 0 in
  {| totalPlayers := Z.of_nat (length (squad teamState));
     maxPlayers := maxSquadSize constraints;
     overseasCount := countOverseasPlayers (squad teamState) allPlayers;
     maxOverseas := maxOverseasPlayers constraints;
     roleBreakdown := roleBreakdown;
     budgetUsed := totalSpent;
     budgetRemaining := remainingBudget teamState |}.

(* ====================================================================== *)
(** ** More of the bid calculator and its hook *)
(* ====================================================================== *)

Record Consideration : Type := mkConsideration {
  shouldBid : bool;
  reason_text : string
}.

Definition shouldConsiderPlayer
    (player : Player) (teamState : TeamState) (allPlayers : list Player)
    : Consideration :=
  let afterOverseasCheck :=
    (* Check role limit *)
    let roleCount := countPlayersByRole (squad teamState) allPlayers in
    let current := default 0 (roleCount !! role player) in
    let max :=
      role_max (roleConstraints DEFAULT_SQUAD_CONSTRAINTS (role player)) in
    if current >=? max then
      {| shouldBid := false;
         reason_text :=
           "Already have maximum " +:+ role_string (role player) +:+ "s" |}
    (* Check budget *)
    else if remainingBudget teamState <? basePrice player then
      {| shouldBid := false;
         reason_text := "Insufficient budget for base price" |}
    else
      {| shouldBid := true; reason_text := "Player is a valid target" |} in
  (* Check overseas limit *)
  if bool_decide (nationality player = overseas) then
    let overseasCount := countOverseasPlayers (squad teamState) allPlayers in
    if overseasCount >=? maxOverseasPlayers DEFAULT_SQUAD_CONSTRAINTS then
      {| shouldBid := false; reason_text := "No overseas slots available" |}
    else afterOverseasCheck
  else afterOverseasCheck.

Record AIRecommendation : Type := mkAIRecommendation {
  recommendation : option BidRecommendation;
  ai_shouldBid : bool;
  skipReason : option string
}.

(** The memoised computation of [useAIRecommendation]
    ([hooks/useAuctionData.ts]). *)
Definition useAIRecommendation
    (player : option Player) (teamState : option TeamState)
    (allPlayers : list Player) (currentBidAmount : option Z)
    (isEnabled : bool) : AIRecommendation :=
  if negb isEnabled then
    {| recommendation := None; ai_shouldBid := false;
       skipReason := Some "AI recommendations disabled" |}
  else
    match player with
    | None =>
        {| recommendation := None; ai_shouldBid := false;
           skipReason := Some "No player selected" |}
    | Some player =>
        match teamState with
        | None =>
            {| recommendation := None; ai_shouldBid := false;
               skipReason := Some "No team selected" |}
        | Some teamState =>
            let considerResult :=
              shouldConsiderPlayer player teamState allPlayers in
            if negb (shouldBid considerResult) then
              {| recommendation := None; ai_shouldBid := false;
                 skipReason := Some (reason_text considerResult) |}
            else
              let r :=
                calculateBidRecommendation player teamState allPlayers
                  currentBidAmount in
              {| recommendation := Some r; ai_shouldBid := true;
                 skipReason := None |}
        end
    end.

(* ====================================================================== *)
(** ** The hook's actions and queries ([useAuction.ts]) *)
(* ====================================================================== *)

(** The calls a component can make on [useAuction(...).actions]. *)
Inductive HookCall : Type :=
  | call_startBidding (player : Player)
  | call_placeBid (team : string) (bidAmount : Z)
  | call_tick
  | call_handleTimeExpired
  | call_resetToIdle
  | call_passPlayer.

(** The action each call dispatches, given the state the hook closed
    over and the catalog it was given. *)
Definition hookAction
    (players : list Player) (state : AuctionState) (call : HookCall)
    : AuctionAction :=
  match call with
  | call_startBidding player => START_BIDDING player
  | call_placeBid team bidAmount => placeBid players state team bidAmount
  | call_tick => TIMER_TICK
  | call_handleTimeExpired => TIME_EXPIRED
  | call_resetToIdle => RESET_TO_IDLE
  | call_passPlayer => PLAYER_UNSOLD
  end.

(** One render.  The callbacks a render hands out all close over the state
    that render saw ([placeBid] has [state] among its dependencies), so
    every call made before the next render decides its action on that
    state.  [dispatch] queues the actions; the reducer then runs them in
    order, the first on the rendered state and each later one on the result
    of the one before, and the outcome is the state the next render sees. *)
Definition useAuction_render
    (players : list Player) (rendered : AuctionState) (calls : list HookCall)
    : AuctionState :=
  fold_left auctionReducer (map (hookAction players rendered) calls) rendered.

(** [useAuction({ teams, players })] over successive renders, each with the
    calls made on its callbacks. *)
Definition useAuction_run
    (ts : list Team) (players : list Player) (renders : list (list HookCall))
    : AuctionState :=
  fold_left (useAuction_render players) renders (createInitialState ts).



Definition canTeamAfford
    (state : AuctionState) (team : string) (bidAmount : Z) : bool :=
  match find (fun t => bool_decide (teamId t = team)) (teams state) with
  | Some t => remainingBudget t >=? bidAmount
  | None => false
  end.

Definition remainingPlayers
    (players : list Player) (state : AuctionState) : list Player :=
  List.filter
    (fun p => negb (bool_decide (player_id p ∈ completedPlayerIds state)))
    players.

(* ====================================================================== *)
(** ** The countdown driver ([useAuctionTimer], in [App.tsx]) *)
(* ====================================================================== *)

#[global] Instance AuctionPhase_eq_dec : EqDecision AuctionPhase.
Proof. solve_decision. Defined.

Definition timer_isRunning (state : AuctionState) : bool :=
  bool_decide (phase state = bidding).

Definition timer_timeRemaining (state : AuctionState) : Z :=
  match state with
  | BiddingState b => timeRemaining b
  | _ => 0
  end.

(** The expiry effect: [onExpired] is called when the rendered state is
    running with no time left. *)
Definition expiryEffect (state : AuctionState) : AuctionState :=
  if timer_isRunning state && (timer_timeRemaining state =? 0)
  then auctionReducer state TIME_EXPIRED
  else state.

(** One period of the interval: [onTick], then the expiry effect on the
    state that results. *)
Definition timerSecond (state : AuctionState) : AuctionState :=
  expiryEffect (auctionReducer state TIMER_TICK).

(* ====================================================================== *)
(** ** Bid controls ([components/BidControls.tsx]) *)
(* ====================================================================== *)

(** What [handleBid] does: either it sets an error and returns, or it
    clears the error, calls [onPlaceBid] and sets the custom amount. *)
Inductive HandleBidOutcome : Type :=
  | BidRejected (error : string)
  | BidForwarded (team : string) (bidAmount : Z) (customBidAmount : string).

Definition handleBid
    (selectedTeamId : option string) (minimumBid : Z)
    (afford : string -> Z -> bool) (bidAmount : Z) : HandleBidOutcome :=
  match selectedTeamId with
  | None => BidRejected "Please select a team first"
  | Some team =>
      if bool_decide (team = EmptyString) then
        BidRejected "Please select a team first"
      else if bidAmount <? minimumBid then
        BidRejected ("Bid must be at least ₹" +:+ pretty minimumBid +:+ "L")
      else if negb (afford team bidAmount) then
        BidRejected "Team cannot afford this bid"
      else
        let newMin := bidAmount + 5 in
        BidForwarded team bidAmount (pretty newMin)
  end.

Definition suggestedIncrements
    (currentBidAmount : option Z) (minimumBid : Z) : list Z :=
  let baseAmount := default minimumBid currentBidAmount in
  getSuggestedBidIncrements baseAmount.

Definition handleQuickBid
    (currentBidAmount : option Z) (selectedTeamId : option string)
    (minimumBid : Z) (afford : string -> Z -> bool) (increment : Z)
    : HandleBidOutcome :=
  let baseAmount := default minimumBid currentBidAmount in
  let newAmount := baseAmount + increment in
  handleBid selectedTeamId minimumBid afford newAmount.

(** The props [AuctionPage] passes to [BidControls] while bidding. *)
Definition page_currentBidAmount (b : BiddingAuctionState) : option Z :=
  match currentBid b with
  | Some bid => Some (amount bid)
  | None => None
  end.

Definition page_minimumBid (b : BiddingAuctionState) : Z :=
  default (basePrice (currentPlayer b)) (getMinBid (BiddingState b)).

(* ====================================================================== *)
(** ** Catalog ids ([hooks/useAuctionData.ts]) *)
(* ====================================================================== *)

Inductive DtoRole : Type := BATTER | BOWLER | ALL_ROUNDER | WICKET_KEEPER.
Inductive DtoNationality : Type := DOMESTIC | OVERSEAS.

Record PlayerStatsDto : Type := mkPlayerStatsDto {
  dto_matches : option Z;
  dto_battingAverage : option Q;
  dto_bowlingAverage : option Q;
  dto_strikeRate : option Q;
  dto_economyRate : option Q
}.

(** [Number.MAX_SAFE_INTEGER]: up to it every integer is a double and is
    printed with all its digits. *)
Definition MAX_SAFE_INTEGER : Z := 9007199254740991.

(** [`${n}`] for a number holding the integer [n]: a minus sign for a
    negative number, then the decimal digits.  This is what the code prints
    for every safe integer; beyond [MAX_SAFE_INTEGER] a number is printed
    with the fewest digits that identify it, and from [10^21] on in exponent
    notation, neither of which is modelled. *)
Definition Number_toString (n : Z) : string := pretty n.

Record PlayerDto : Type := mkPlayerDto {
  dto_id : Z;
  dto_name : string;
  dto_role : DtoRole;
  dto_nationality : DtoNationality;
  dto_basePrice : Z;
  dto_stats : PlayerStatsDto
}.

Definition roleMap (r : DtoRole) : option PlayerRole :=
  match r with
  | BATTER => Some batter
  | BOWLER => Some bowler
  | ALL_ROUNDER => Some all_rounder
  | WICKET_KEEPER => Some wicket_keeper
  end.

Definition nationalityMap (n : DtoNationality) : option PlayerNationality :=
  match n with
  | DOMESTIC => Some domestic
  | OVERSEAS => Some overseas
  end.

Definition transformPlayer (dto : PlayerDto) : Player :=
  {| player_id := "player-" +:+ Number_toString (dto_id dto);
     player_name := dto_name dto;
     role := default batter (roleMap (dto_role dto));
     nationality := default domestic (nationalityMap (dto_nationality dto));
     basePrice := dto_basePrice dto;
     stats :=
       {| matches := default 0 (dto_matches (dto_stats dto));
          battingAverage := dto_battingAverage (dto_stats dto);
          bowlingAverage := dto_bowlingAverage (dto_stats dto);
          strikeRate := dto_strikeRate (dto_stats dto);
          economyRate := dto_economyRate (dto_stats dto) |} |}.

(** [\d]: an ASCII decimal digit, and its value. *)
Definition is_digit (c : Ascii.ascii) : bool :=
  (48 <=? Ascii.nat_of_ascii c)%nat && (Ascii.nat_of_ascii c <=? 57)%nat.

Definition digit_value (c : Ascii.ascii) : N :=
  N.of_nat (Ascii.nat_of_ascii c - 48).

Fixpoint all_digits (s : string) : bool :=
  match s with
  | EmptyString => true
  | String c rest => is_digit c && all_digits rest
  end.

(** The text [/\d+$/] matches: the longest run of digits that ends the
    string ([EmptyString] when the string does not end in a digit, in
    which case [match] returns null). *)
Fixpoint trailing_digits (s : string) : string :=
  match s with
  | EmptyString => EmptyString
  | String c rest => if all_digits s then s else trailing_digits rest
  end.

(** [parseInt(digits, 10)] on a string of decimal digits: the integer they
    denote (the code's result is that integer as long as it is at most
    [MAX_SAFE_INTEGER]). *)
Fixpoint parse_digits_from (acc : N) (s : string) : N :=
  match s with
  | EmptyString => acc
  | String c rest => parse_digits_from (10 * acc + digit_value c)%N rest
  end.

Definition parseInt10 (digits : string) : N := parse_digits_from 0%N digits.

(** The result is the number, or the message of the [Error] thrown. *)
Definition extractNumericId (prefixedId : string) : N + string :=
  match trailing_digits prefixedId with
  | EmptyString => inr ("Invalid ID format: " +:+ prefixedId)
  | String c rest => inl (parseInt10 (String c rest))
  end.

(* ====================================================================== *)
(** ** Predicates used in the further statements *)
(* ====================================================================== *)

(** [prefix] cannot be followed by a longer run of digits: it is empty or
    ends in a character that is not a digit. *)
Definition ends_without_digit (prefix : string) : Prop :=
  prefix = EmptyString
  \/ exists before c,
       prefix = before +:+ String c EmptyString /\ is_digit c = false.

Definition sample_dto : PlayerDto :=
  mkPlayerDto 42 "R. Sharma" BATTER DOMESTIC 200
    (mkPlayerStatsDto (Some 243) (Some 30.3%Q) None (Some 130.6%Q) None).

(* ====================================================================== *)
(** ** Team and state updates *)
(* ====================================================================== *)

(** A bidding state with one field replaced. *)
Definition with_timeRemaining (b : BiddingAuctionState) (t : Z)
    : BiddingAuctionState :=
  {| currentPlayer := currentPlayer b;
     currentBid := currentBid b;
     timeRemaining := t;
     bidding_completedPlayerIds := bidding_completedPlayerIds b;
     bidding_teams := bidding_teams b;
     bidding_message := bidding_message b |}.

Definition with_message (b : BiddingAuctionState) (m : option string)
    : BiddingAuctionState :=
  {| currentPlayer := currentPlayer b;
     currentBid := currentBid b;
     timeRemaining := timeRemaining b;
     bidding_completedPlayerIds := bidding_completedPlayerIds b;
     bidding_teams := bidding_teams b;
     bidding_message := m |}.

(** What a team has spent, as the squad summary reports it. *)
Definition team_spent (t : TeamState) : Z :=
  budgetUsed (getSquadSummary t [] DEFAULT_SQUAD_CONSTRAINTS).

(** The price on the table is not below the base price of the player. *)
Definition price_at_least_base (s : AuctionState) : Prop :=
  match s with
  | BiddingState b =>
      match currentBid b with
      | Some bid => basePrice (currentPlayer b) <= amount bid
      | None => True
      end
  | SoldState p bid _ _ _ => basePrice p <= amount bid
  | _ => True
  end.

(** The entries of a squad the catalog knows. *)
Definition resolved_entries
    (sq : list AcquiredPlayer) (allPlayers : list Player)
    : list AcquiredPlayer :=
  List.filter
    (fun acquired =>
       bool_decide (playerId acquired ∈ map player_id allPlayers)) sq.

Definition role_count (counts : gmap PlayerRole Z) (r : PlayerRole) : Z :=
  default 0 (counts !! r).

(** The function [countPlayersByRole] reduces the squad with. *)
Definition role_count_step (allPlayers : list Player)
    (counts : gmap PlayerRole Z) (acquired : AcquiredPlayer)
    : gmap PlayerRole Z :=
  match playerMap allPlayers !! playerId acquired with
  | Some player =>
      let currentCount := default 0 (counts !! role player) in
      <[ role player := currentCount + 1 ]> counts
  | None => counts
  end.

Definition role_count_total (counts : gmap PlayerRole Z) : Z :=
  role_count counts batter + role_count counts bowler
  + role_count counts all_rounder + role_count counts wicket_keeper.

(* ====================================================================== *)
(** * Theorems *)
(* ====================================================================== *)

(** ** Minimum valid bid *)

(** C7. For every bidding-phase state, [getMinimumValidBid] is the current
    player's base price when there is no current bid, and the current bid's
    amount plus 5 when there is one.  In the scenario of the specification
    (base price 50): right after [START_BIDDING] the minimum is 50, and once
    a bid of 50 has been placed it is 55. *)
Theorem getMinimumValidBid_correct :
  (forall p t history ts msg,
      getMinimumValidBid (mkBidding p None t history ts msg) = basePrice p)
  /\ (forall p team a t history ts msg,
      getMinimumValidBid
        (mkBidding p (Some (mkCurrentBid team a)) t history ts msg) = a + 5)
  /\ (forall pid pname r n st history ts msg team,
      let p := mkPlayer pid pname r n 50 st in
      let s1 := auctionReducer (IdleState history ts msg) (START_BIDDING p) in
      let s2 := auctionReducer s1 (PLACE_BID team 50) in
      getMinBid s1 = Some 50 /\ getMinBid s2 = Some 55).
Proof.
  split; [|split]; intros; cbn; reflexivity || (split; reflexivity).
Qed.

(** ** Timer extension *)

Lemma calculateTimeAfterBid_le_max (t : Z) :
  calculateTimeAfterBid t <= AUCTION_CONSTANTS.MAX_TIME_EXTENSION.
Proof. unfold calculateTimeAfterBid. cbn zeta. apply Z.le_min_r. Qed.

Lemma auctionReducer_timer_within_cap (s : AuctionState) (a : AuctionAction) :
  timer_within_cap s -> timer_within_cap (auctionReducer s a).
Proof.
  intros Hs. unfold auctionReducer.
  destruct a, s; cbn in *; trivial.
  - discriminate.
  - apply calculateTimeAfterBid_le_max.
  - destruct (currentBid b); exact I.
  - destruct (currentBid b); [exact I | exact Hs].
  - destruct (timeRemaining b - 1 <=? 0) eqn:E; lia.
Qed.

Lemma dispatchAll_timer_within_cap (actions : list AuctionAction) :
  forall s, timer_within_cap s -> timer_within_cap (dispatchAll s actions).
Proof.
  induction actions as [|a actions IH]; intros s Hs; cbn; [exact Hs|].
  apply IH, auctionReducer_timer_within_cap, Hs.
Qed.

Lemma placeBids_stay_bidding (bids : list (string * Z)) :
  forall b, exists b',
    dispatchAll (BiddingState b) (placeBids bids) = BiddingState b'.
Proof.
  induction bids as [|bid bids IH]; intros b; cbn.
  - exists b. reflexivity.
  - apply IH.
Qed.

(** C6. [PLACE_BID] on a bidding-phase state sets [timeRemaining] to
    [min (previous + 15) 60].  Consequently, after any non-empty sequence of
    placed bids -- whatever the timer was before -- the state is still in
    the bidding phase and [timeRemaining] is at most 60; and in a run from
    the initial state, under any actions whatsoever, no bidding-phase state
    has a [timeRemaining] above 60. *)
Theorem place_bid_extends_timer_capped :
  (forall b team a,
      exists b',
        auctionReducer (BiddingState b) (PLACE_BID team a) = BiddingState b'
        /\ timeRemaining b' = Z.min (timeRemaining b + 15) 60)
  /\ (forall b bid bids,
      exists b',
        dispatchAll (BiddingState b) (placeBids (bid :: bids))
          = BiddingState b'
        /\ timeRemaining b' <= 60)
  /\ (forall ts actions,
      timer_within_cap (dispatchAll (createInitialState ts) actions)).
Proof.
  split; [|split].
  - intros b team a. eexists. split; reflexivity.
  - intros b bid bids.
    set (b1 := {| currentPlayer := currentPlayer b;
                  currentBid := Some (mkCurrentBid bid.1 bid.2);
                  timeRemaining := calculateTimeAfterBid (timeRemaining b);
                  bidding_completedPlayerIds := bidding_completedPlayerIds b;
                  bidding_teams := bidding_teams b;
                  bidding_message :=
                    Some (bid.1 +:+ " bids ₹" +:+ pretty bid.2 +:+ "L") |}).
    change (dispatchAll (BiddingState b) (placeBids (bid :: bids)))
      with (dispatchAll (BiddingState b1) (placeBids bids)).
    destruct (placeBids_stay_bidding bids b1) as [b' Hb'].
    exists b'. split; [exact Hb'|].
    assert (H : timer_within_cap (dispatchAll (BiddingState b1)
                                    (placeBids bids))).
    { apply dispatchAll_timer_within_cap. cbn.
      apply calculateTimeAfterBid_le_max. }
    rewrite Hb' in H. exact H.
  - intros ts actions. apply dispatchAll_timer_within_cap. exact I.
Qed.

(** ** Expiry and explicit sale without a bid *)

(** C2, as stated, fails for [PLAYER_SOLD]: on a bidding-phase state with
    no current bid the reducer returns the state itself, still in the
    bidding phase, and the player is not added to the history. *)
Lemma player_sold_without_bid_is_not_unsold :
  let b := sample_bidding None [ sample_team "team-1" 100 ] in
  currentBid b = None
  /\ auctionReducer (BiddingState b) PLAYER_SOLD = BiddingState b
  /\ ~ unsold_outcome b (auctionReducer (BiddingState b) PLAYER_SOLD).
Proof.
  cbn. split; [reflexivity|]. split; [reflexivity|].
  intros (Hphase & _). discriminate Hphase.
Qed.

(** C2 (amended). On a bidding-phase state with no current bid,
    [TIME_EXPIRED] produces an unsold-phase state with every team state
    unchanged and the current player's id appended to the history, while
    [PLAYER_SOLD] is guarded by [currentBid === null] and returns the state
    unchanged. *)
Theorem expiry_without_bid (b : BiddingAuctionState) :
  currentBid b = None ->
  unsold_outcome b (auctionReducer (BiddingState b) TIME_EXPIRED)
  /\ auctionReducer (BiddingState b) PLAYER_SOLD = BiddingState b.
Proof.
  intros Hbid. unfold auctionReducer, unsold_outcome. cbn. rewrite Hbid. cbn.
  repeat split.
Qed.

Lemma expiry_without_bid_witness :
  let b := sample_bidding None [ sample_team "team-1" 100 ] in
  unsold_outcome b (auctionReducer (BiddingState b) TIME_EXPIRED)
  /\ auctionReducer (BiddingState b) PLAYER_SOLD = BiddingState b.
Proof.
  exact (expiry_without_bid
           (sample_bidding None [ sample_team "team-1" 100 ]) eq_refl).
Defined.

(** ** Out-of-phase events *)

(** C3, as stated, fails for [RESET_TO_IDLE], which has no phase guard:
    dispatched during bidding it abandons the round and returns to idle. *)
Lemma reset_to_idle_during_bidding_changes_state :
  let s := BiddingState (sample_bidding None [ sample_team "team-1" 100 ]) in
  declared_legal RESET_TO_IDLE (phase s) = false
  /\ auctionReducer s RESET_TO_IDLE
       = IdleState [ "p-0" ] [ sample_team "team-1" 100 ] None
  /\ auctionReducer s RESET_TO_IDLE <> s.
Proof.
  cbn. split; [reflexivity|]. split; [reflexivity|]. discriminate.
Qed.

(** C3 (amended). For every action other than [RESET_TO_IDLE], dispatching
    it outside its declared legal phases returns the state unchanged.
    [RESET_TO_IDLE] is unguarded: from every phase it yields the idle state
    with the same history and team states and no message. *)
Theorem out_of_phase_is_noop (s : AuctionState) (a : AuctionAction) :
  (a <> RESET_TO_IDLE ->
   declared_legal a (phase s) = false ->
   auctionReducer s a = s)
  /\ auctionReducer s RESET_TO_IDLE
       = IdleState (completedPlayerIds s) (teams s) None.
Proof.
  split; [|reflexivity].
  intros Hne Hillegal.
  destruct a, s; cbn in *; try reflexivity; try discriminate; congruence.
Qed.

Lemma out_of_phase_is_noop_witness :
  let s := SoldState sample_player (mkCurrentBid "team-1" 60) [ "p-1" ]
             [ sample_team "team-1" 40 ] None in
  auctionReducer s (PLACE_BID "team-2" 70) = s.
Proof.
  refine (proj1 (out_of_phase_is_noop _ (PLACE_BID "team-2" 70)) _ _).
  - discriminate.
  - reflexivity.
Defined.

(** ** Sale *)

Lemma updateTeamsAfterSale_length ts winner pid price :
  length (updateTeamsAfterSale ts winner pid price) = length ts.
Proof. unfold updateTeamsAfterSale. apply length_map. Qed.

Lemma finalizePlayerPurchase_effect team pid price :
  teamId (finalizePlayerPurchase team pid price) = teamId team
  /\ remainingBudget (finalizePlayerPurchase team pid price)
       = remainingBudget team - price
  /\ squad (finalizePlayerPurchase team pid price)
       = squad team ++ [ mkAcquiredPlayer pid price ].
Proof. repeat split. Qed.

Lemma updateTeamsAfterSale_lookup ts winner pid price :
  forall (i : nat) (before : TeamState),
    ts !! i = Some before ->
    exists after,
      updateTeamsAfterSale ts winner pid price !! i = Some after
      /\ sale_effect winner pid price before after.
Proof.
  induction ts as [|team ts IH]; intros i before Hi; [discriminate Hi|].
  destruct i as [|i]; cbn in Hi.
  - injection Hi as ->. cbn.
    destruct (bool_decide (teamId before = winner)) eqn:E.
    + eexists. split; [reflexivity|]. split.
      * intros _. apply finalizePlayerPurchase_effect.
      * intros Hne. apply bool_decide_eq_true in E. contradiction.
    + exists before. split; [reflexivity|]. split.
      * intros Heq. apply bool_decide_eq_false in E. contradiction.
      * reflexivity.
  - apply IH, Hi.
Qed.

Lemma soldStateOf_sold_outcome (b : BiddingAuctionState) (bid : CurrentBid) :
  sold_outcome b (bid_teamId bid) (amount bid) (soldStateOf b bid).
Proof.
  unfold sold_outcome, soldStateOf; cbn.
  split; [reflexivity|]. split; [reflexivity|].
  split; [apply updateTeamsAfterSale_length|].
  apply updateTeamsAfterSale_lookup.
Qed.

(** C4. On a bidding-phase state whose current bid is [{teamId: t;
    amount: a}], both [TIME_EXPIRED] and [PLAYER_SOLD] produce a sold-phase
    state: position by position the team list is the old one, where team
    [t] has its remaining budget reduced by exactly [a] and the acquired
    player (current player's id, price [a]) appended to its squad and every
    other team state is unchanged; and the history is the old one with the
    current player's id appended once. *)
Theorem sale_with_current_bid
    (b : BiddingAuctionState) (t : string) (a : Z) :
  currentBid b = Some (mkCurrentBid t a) ->
  sold_outcome b t a (auctionReducer (BiddingState b) TIME_EXPIRED)
  /\ sold_outcome b t a (auctionReducer (BiddingState b) PLAYER_SOLD).
Proof.
  intros Hbid. unfold auctionReducer; cbn. rewrite Hbid; cbn.
  split; apply (soldStateOf_sold_outcome b (mkCurrentBid t a)).
Qed.

Lemma sale_with_current_bid_witness :
  let b := sample_bidding (Some (mkCurrentBid "team-3" 120))
             [ sample_team "team-1" 500; sample_team "team-3" 400 ] in
  sold_outcome b "team-3" 120 (auctionReducer (BiddingState b) TIME_EXPIRED)
  /\ sold_outcome b "team-3" 120
       (auctionReducer (BiddingState b) PLAYER_SOLD).
Proof.
  exact (sale_with_current_bid
           (sample_bidding (Some (mkCurrentBid "team-3" 120))
              [ sample_team "team-1" 500; sample_team "team-3" 400 ])
           "team-3" 120 eq_refl).
Defined.

(** The scenario of the specification, evaluated. *)
Example time_expired_scenario :
  auctionReducer
    (BiddingState
       (sample_bidding (Some (mkCurrentBid "team-3" 120))
          [ sample_team "team-1" 500; sample_team "team-3" 400 ]))
    TIME_EXPIRED
  = SoldState sample_player (mkCurrentBid "team-3" 120) [ "p-0"; "p-1" ]
      [ sample_team "team-1" 500;
        mkTeamState "team-3" 280 [ mkAcquiredPlayer "p-1" 120 ] ]
      (Some "SOLD! R. Sharma to team-3 for ₹120L").
Proof. vm_compute. reflexivity. Qed.

(** ** Exhaustive validation *)

Lemma push_errors_unless_valid_app errors r :
  push_errors_unless_valid errors r = errors ++ errors_of r.
Proof.
  unfold push_errors_unless_valid.
  destruct r; cbn; [rewrite app_nil_r|]; reflexivity.
Qed.

Lemma validatePlayerAcquisitionWith_errors ts p amt allPlayers c :
  errors_of (validatePlayerAcquisitionWith ts p amt allPlayers c)
  = all_violations ts p amt allPlayers c.
Proof.
  unfold validatePlayerAcquisitionWith, all_violations. cbn zeta.
  rewrite !push_errors_unless_valid_app. cbn [app].
  rewrite <- !app_assoc.
  match goal with
  | |- errors_of (if (length ?l =? 0)%nat then _ else _) = _ =>
      destruct l eqn:E; cbn; reflexivity
  end.
Qed.

Lemma all_violations_codes ts p amt allPlayers c :
  map code (all_violations ts p amt allPlayers c)
  = code_if (budget_fails ts amt) INSUFFICIENT_BUDGET
    ++ code_if (squad_size_fails ts c) SQUAD_FULL
    ++ code_if (role_limit_fails ts p allPlayers c) ROLE_LIMIT_EXCEEDED
    ++ code_if (overseas_limit_fails ts p allPlayers c)
         OVERSEAS_LIMIT_EXCEEDED.
Proof.
  unfold all_violations. rewrite !map_app. f_equal; [|f_equal; [|f_equal]].
  - unfold validateBudget, budget_fails.
    destruct (amt >? remainingBudget ts); reflexivity.
  - unfold validateSquadSize, squad_size_fails.
    destruct (_ >=? _); reflexivity.
  - unfold validateRoleLimits, role_limit_fails. cbn zeta.
    destruct (_ >=? _); reflexivity.
  - unfold validateOverseasLimits, overseas_limit_fails.
    destruct (bool_decide (nationality p = overseas)); cbn; [|reflexivity].
    destruct (_ >=? _); reflexivity.
Qed.

(** C5. [validatePlayerAcquisition] runs the budget, squad-size, role-limit
    and overseas-limit checks unconditionally: the violations it returns are
    those of the four checks concatenated in that order (so their codes are
    exactly the codes of the failed checks, in that order), it is valid
    exactly when that list is empty, and a bid failing both the budget and
    the role-limit check gets both violations, budget first. *)
Theorem validatePlayerAcquisition_exhaustive
    (ts : TeamState) (p : Player) (amt : Z) (allPlayers : list Player) :
  let c := DEFAULT_SQUAD_CONSTRAINTS in
  let result := validatePlayerAcquisition ts p amt allPlayers in
  errors_of result = all_violations ts p amt allPlayers c
  /\ map code (errors_of result)
     = code_if (budget_fails ts amt) INSUFFICIENT_BUDGET
       ++ code_if (squad_size_fails ts c) SQUAD_FULL
       ++ code_if (role_limit_fails ts p allPlayers c) ROLE_LIMIT_EXCEEDED
       ++ code_if (overseas_limit_fails ts p allPlayers c)
            OVERSEAS_LIMIT_EXCEEDED
  /\ (isValid result = true <-> all_violations ts p amt allPlayers c = [])
  /\ (budget_fails ts amt = true ->
      role_limit_fails ts p allPlayers c = true ->
      exists e1 mid e2 rest,
        result = Invalid (e1 :: mid ++ e2 :: rest)
        /\ code e1 = INSUFFICIENT_BUDGET
        /\ code e2 = ROLE_LIMIT_EXCEEDED).
Proof.
  intros c result.
  assert (Herr : errors_of result = all_violations ts p amt allPlayers c)
    by apply validatePlayerAcquisitionWith_errors.
  split; [exact Herr|].
  split; [rewrite Herr; apply all_violations_codes|].
  split.
  - rewrite <- Herr. subst result.
    unfold validatePlayerAcquisition, validatePlayerAcquisitionWith.
    cbn zeta.
    match goal with
    | |- context [ (length ?l =? 0)%nat ] => destruct l eqn:E
    end; cbn; split; intros H; congruence.
  - intros Hbudget Hrole.
    unfold all_violations in Herr.
    unfold validateBudget in Herr. fold (budget_fails ts amt) in Herr.
    rewrite Hbudget in Herr.
    unfold validateRoleLimits in Herr. cbn zeta in Herr.
    fold (role_limit_fails ts p allPlayers c) in Herr.
    rewrite Hrole in Herr. cbn [errors_of app] in Herr.
    destruct result as [|es]; [discriminate Herr|].
    cbn [errors_of] in Herr. subst es.
    eexists _, _, _, _. split; [reflexivity|]. split; reflexivity.
Qed.

Lemma validatePlayerAcquisition_exhaustive_witness :
  exists e1 mid e2 rest,
    validatePlayerAcquisition (full_of_batters 100) sample_player 150
      eight_batters
    = Invalid (e1 :: mid ++ e2 :: rest)
    /\ code e1 = INSUFFICIENT_BUDGET
    /\ code e2 = ROLE_LIMIT_EXCEEDED.
Proof.
  refine (proj2 (proj2 (proj2
    (validatePlayerAcquisition_exhaustive (full_of_batters 100)
       sample_player 150 eight_batters))) _ _).
  - vm_compute. reflexivity.
  - vm_compute. reflexivity.
Defined.

(** The scenario of the specification: budget 100, price 150, nothing else
    wrong: a single budget violation whose shortfall is 50. *)
Example single_budget_violation :
  validatePlayerAcquisition (sample_team "team-1" 100) sample_player 150 []
  = Invalid
      [ {| code := INSUFFICIENT_BUDGET;
           error_message :=
             "Insufficient budget. Required: ₹150L, Available: ₹100L";
           context := [ ("required", CNum 150); ("available", CNum 100);
                        ("shortfall", CNum 50) ] |} ].
Proof. vm_compute. reflexivity. Qed.

(** ** Bid validation *)

(** C10, as stated, fails when the team id is not among the teams of the
    state: the lookup failure is reported first, as [NOT_YOUR_TURN], even
    for a bid below the minimum. *)
Lemma low_bid_of_unknown_team_is_not_bid_too_low :
  let b := sample_bidding None [ sample_team "team-1" 100 ] in
  10 < getMinimumValidBid b
  /\ map code (errors_of (validateBid b "team-9" 10 [])) = [ NOT_YOUR_TURN ]
  /\ ~ (exists e, validateBid b "team-9" 10 [] = Invalid [ e ]
                  /\ code e = BID_TOO_LOW).
Proof.
  cbn zeta. split; [vm_compute; reflexivity|].
  split; [vm_compute; reflexivity|].
  intros (e & He & Hcode). vm_compute in He.
  injection He as <-. discriminate Hcode.
Qed.

(** A team id that is not among the teams of the state gets the single
    error [NOT_YOUR_TURN], whatever the amount. *)
Lemma validateBid_unknown_team
    (b : BiddingAuctionState) (team : string) (amt : Z)
    (allPlayers : list Player) :
  find (fun t => bool_decide (teamId t = team)) (bidding_teams b) = None ->
  exists e,
    validateBid b team amt allPlayers = Invalid [ e ]
    /\ code e = NOT_YOUR_TURN.
Proof.
  intros Hfind. unfold validateBid. rewrite Hfind.
  eexists. split; reflexivity.
Qed.

(** C10 (amended). When the team id is found among the teams of the state
    and the bid is strictly below the minimum valid bid, [validateBid]
    returns exactly one error, with code [BID_TOO_LOW], whatever the
    acquisition checks would have reported: they are not run. *)
Theorem validateBid_too_low_only
    (b : BiddingAuctionState) (team : string) (amt : Z)
    (allPlayers : list Player) (teamState : TeamState) :
  find (fun t => bool_decide (teamId t = team)) (bidding_teams b)
    = Some teamState ->
  amt < getMinimumValidBid b ->
  exists e,
    validateBid b team amt allPlayers = Invalid [ e ]
    /\ code e = BID_TOO_LOW
    /\ context e = [ ("bidAmount", CNum amt);
                     ("minimumRequired", CNum (getMinimumValidBid b));
                     ("increment", CNum 5) ].
Proof.
  intros Hfind Hlow. unfold validateBid. rewrite Hfind. cbn zeta.
  apply Z.ltb_lt in Hlow. rewrite Hlow.
  eexists. split; [reflexivity|]. split; reflexivity.
Qed.

(** A bid of 10 for a player whose base price is 50, by a team that can
    neither afford it nor take another batter nor another overseas player:
    the acquisition checks alone would report three violations, but below
    the minimum only [BID_TOO_LOW] is returned. *)
Lemma validateBid_too_low_only_witness :
  let b := mkBidding overseas_batter None 30 [] [ full_of_batters 5 ] None in
  exists e,
    validateBid b "team-1" 10 eight_batters = Invalid [ e ]
    /\ code e = BID_TOO_LOW
    /\ context e = [ ("bidAmount", CNum 10);
                     ("minimumRequired", CNum (getMinimumValidBid b));
                     ("increment", CNum 5) ].
Proof.
  refine (validateBid_too_low_only
            (mkBidding overseas_batter None 30 [] [ full_of_batters 5 ] None)
            "team-1" 10 eight_batters (full_of_batters 5) _ _).
  - vm_compute. reflexivity.
  - vm_compute. reflexivity.
Defined.

Example acquisition_checks_would_have_failed :
  map code
    (errors_of (validatePlayerAcquisition (full_of_batters 5)
                  overseas_batter 10 eight_batters))
  = [ INSUFFICIENT_BUDGET; ROLE_LIMIT_EXCEEDED; OVERSEAS_LIMIT_EXCEEDED ].
Proof. vm_compute. reflexivity. Qed.

(** ** Budget cap *)

(** C9, as stated, fails once the squad has reached the minimum size: the
    cap is then the remaining budget itself, with no floor at 20. *)
Lemma budget_cap_below_floor_when_squad_complete :
  let ts := mkTeamState "team-1" 5
              (repeat (mkAcquiredPlayer "p-1" 10) 15) in
  calculateBudgetCap ts = 5
  /\ spec_budgetCap ts = 20
  /\ calculateBudgetCap ts <> spec_budgetCap ts
  /\ ~ 20 <= calculateBudgetCap ts.
Proof. vm_compute. repeat split; congruence. Qed.

Lemma Math_min_le_cap (x cap : Q) : (Math_min x cap <= cap)%Q.
Proof.
  unfold Math_min. destruct (Qle_bool x cap) eqn:E.
  - apply Qle_bool_iff, E.
  - apply Qle_refl.
Qed.

Lemma Math_round_le_integer (x : Q) (z : Z) :
  (x <= inject_Z z)%Q -> Math_round x <= z.
Proof.
  intros Hx. unfold Math_round.
  pose proof (Qfloor_le (x + 0.5)) as Hfloor.
  generalize dependent (Qfloor (x + 0.5)). intros f Hfloor.
  assert (H : (inject_Z f <= inject_Z z + 0.5)%Q) by lra.
  unfold Qle in H. cbn in H. lia.
Qed.

Lemma estimateAfterBudgetCap_le_cap p ts allPlayers :
  ((estimateAfterBudgetCap p ts allPlayers).1
   <= inject_Z (calculateBudgetCap ts))%Q.
Proof.
  unfold estimateAfterBudgetCap.
  destruct (bool_decide (nationality p = overseas)); cbn [fst];
    apply Math_min_le_cap.
Qed.

(** C9 (amended). The cap [calculateBidRecommendation] applies is
    [calculateBudgetCap]: the estimate after the budget stage, and the
    recommendation itself when no current bid is passed, never exceed it.
    While the squad is below the minimum size the cap is the remaining
    budget minus the reserve [max 0 ((playersNeeded - 1) * 20)], floored at
    20, hence never below 20; once the squad has reached the minimum size
    the reserve is 0 and the cap is the remaining budget, without a
    floor. *)
Theorem calculateBudgetCap_correct (ts : TeamState) :
  (forall p allPlayers,
     ((estimateAfterBudgetCap p ts allPlayers).1
      <= inject_Z (calculateBudgetCap ts))%Q
     /\ recommendedMaxBid (calculateBidRecommendation p ts allPlayers None)
        <= calculateBudgetCap ts)
  /\ (Z.of_nat (length (squad ts)) < minSquadSize DEFAULT_SQUAD_CONSTRAINTS ->
     calculateBudgetCap ts
       = Z.max 20 (remainingBudget ts - spec_reserve ts)
     /\ calculateBudgetCap ts = spec_budgetCap ts
     /\ 20 <= calculateBudgetCap ts)
  /\ (minSquadSize DEFAULT_SQUAD_CONSTRAINTS <= Z.of_nat (length (squad ts)) ->
     spec_reserve ts = 0
     /\ calculateBudgetCap ts = remainingBudget ts).
Proof.
  split.
  { intros p allPlayers.
    pose proof (estimateAfterBudgetCap_le_cap p ts allPlayers) as Hcap.
    split; [exact Hcap|].
    unfold calculateBidRecommendation.
    destruct (estimateAfterBudgetCap p ts allPlayers) as [x r].
    cbn [fst recommendedMaxBid] in *.
    apply Math_round_le_integer, Hcap. }
  unfold spec_budgetCap, calculateBudgetCap, spec_reserve, spec_playersNeeded.
  cbn.
  split; intros H.
  - destruct (15 - Z.of_nat (length (squad ts)) <=? 0) eqn:E; [lia|].
    rewrite (Z.max_r 0 (15 - Z.of_nat (length (squad ts)))) by lia.
    repeat split; lia.
  - destruct (15 - Z.of_nat (length (squad ts)) <=? 0) eqn:E; [|lia].
    split; [lia|reflexivity].
Qed.

Lemma calculateBudgetCap_correct_witness :
  let ts := sample_team "team-1" 100 in
  calculateBudgetCap ts = Z.max 20 (remainingBudget ts - spec_reserve ts)
  /\ calculateBudgetCap ts = spec_budgetCap ts
  /\ 20 <= calculateBudgetCap ts.
Proof.
  refine (proj1 (proj2 (calculateBudgetCap_correct
                          (sample_team "team-1" 100))) _).
  vm_compute. reflexivity.
Defined.

(** ** Double-precision rounding *)

#[local] Set Warnings "-inexact-float".

(** [fl] agrees with the machine's binary64 arithmetic on the literals,
    sums and products that the calculator meets. *)
Example fl_agrees_with_binary64 :
  Q_of_float 0.3 = Some (fl 0.3)
  /\ Q_of_float 0.15 = Some (fl 0.15)
  /\ Q_of_float 0.4 = Some (fl 0.4)
  /\ Q_of_float 0.2 = Some (fl 0.2)
  /\ Q_of_float 0.8 = Some (fl 0.8)
  /\ Q_of_float (0.1 + 0.2) = Some (fadd (fl 0.1) (fl 0.2))
  /\ Q_of_float (3 * 0.2) = Some (fmul 3 (fl 0.2))
  /\ Q_of_float (1 + 3 * 0.2) = Some (fadd 1 (fmul 3 (fl 0.2)))
  /\ Q_of_float (1 + 0.3 + 0.4 + 0.3 + 0.4 + 0.3)
     = Some (fadd (fadd (fadd (fadd (fadd 1 (fl 0.3)) (fl 0.4)) (fl 0.3))
                     (fl 0.4)) (fl 0.3))
  /\ Q_of_float (50 * (1 + 0.4 + 0.3) * 1.6)
     = Some (fmul (fmul 50 (fadd (fadd 1 (fl 0.4)) (fl 0.3))) (fl 1.6))
  /\ Q_of_float (50 * (1 + 0.15) * (1 + 2 * 0.2))
     = Some (fmul (fmul 50 (fadd 1 (fl 0.15))) (fadd 1 (fmul 2 (fl 0.2))))
  /\ Q_of_float (-7.3 * 0.1) = Some (fmul (fl (-7.3)) (fl 0.1)).
Proof. vm_compute. repeat split. Qed.

Lemma two_power_pos (e : Z) : (0 < 2 ^ e)%Q.
Proof. apply Qpower_0_lt. reflexivity. Qed.

Lemma two_power_succ (e : Z) : (2 ^ (e + 1) == 2 * 2 ^ e)%Q.
Proof.
  rewrite Qpower_plus by discriminate.
  change (2 ^ 1)%Q with 2%Q. ring.
Qed.

Lemma two_power_inject (n : Z) :
  0 <= n -> (inject_Z (2 ^ n) == 2 ^ n)%Q.
Proof. intros Hn. apply (Zpower_Qpower 2 n Hn). Qed.

Lemma binade_bounds (x : Q) :
  (0 < x)%Q ->
  let e := Z.log2 (Qnum x) - Z.log2 (Zpos (Qden x)) in
  (2 ^ (e - 1) <= x /\ x < 2 ^ (e + 1))%Q.
Proof.
  intros Hx e.
  destruct x as [n d]. cbn [Qnum Qden] in e.
  assert (Hn : 0 < n) by (unfold Qlt in Hx; cbn in Hx; lia).
  pose proof (Z.log2_spec n Hn) as [Hn1 Hn2].
  pose proof (Z.log2_spec (Zpos d) (Pos2Z.is_pos d)) as [Hd1 Hd2].
  pose proof (Z.log2_nonneg n) as Ha.
  pose proof (Z.log2_nonneg (Zpos d)) as Hb.
  set (a := Z.log2 n) in *. set (b := Z.log2 (Zpos d)) in *.
  assert (Hxd : (n # d) * inject_Z (Zpos d) == inject_Z n).
  { unfold Qeq, Qmult, inject_Z. cbn. lia. }
  assert (Hdpos : (0 < inject_Z (Zpos d))%Q) by reflexivity.
  assert (HA : (inject_Z n < 2 ^ (a + 1))%Q).
  { rewrite <- two_power_inject by lia. rewrite <- Zlt_Qlt. lia. }
  assert (HA' : (2 ^ a <= inject_Z n)%Q).
  { rewrite <- two_power_inject by lia. rewrite <- Zle_Qle. lia. }
  assert (HB : (inject_Z (Zpos d) < 2 ^ (b + 1))%Q).
  { rewrite <- two_power_inject by lia. rewrite <- Zlt_Qlt. lia. }
  assert (HB' : (2 ^ b <= inject_Z (Zpos d))%Q).
  { rewrite <- two_power_inject by lia. rewrite <- Zle_Qle. lia. }
  assert (E1 : (2 ^ (a + 1) == 2 ^ (e + 1) * 2 ^ b)%Q).
  { rewrite <- Qpower_plus by discriminate. f_equiv. unfold e. lia. }
  assert (E2 : (2 ^ a == 2 ^ (e - 1) * 2 ^ (b + 1))%Q).
  { rewrite <- Qpower_plus by discriminate. f_equiv. unfold e. lia. }
  pose proof (two_power_pos (e + 1)) as P1.
  pose proof (two_power_pos (e - 1)) as P2.
  generalize dependent (2 ^ (e + 1))%Q. generalize dependent (2 ^ (e - 1))%Q.
  generalize dependent (2 ^ (a + 1))%Q. generalize dependent (2 ^ a)%Q.
  generalize dependent (2 ^ (b + 1))%Q. generalize dependent (2 ^ b)%Q.
  generalize dependent (inject_Z (Zpos d)). generalize dependent (inject_Z n).
  intros N D HxD HD B HB' B1 HB A HA' A1 HA Pm E2 Hpm Pp E1 Hpp.
  set (X := n # d) in *. clearbody X. clear -HxD HD HB' HB HA' HA E2 Hpm E1 Hpp.
  split.
  - apply Qnot_lt_le. intros Hc.
    assert (X * D < Pm * B1)%Q.
    { apply Qlt_trans with (Pm * D)%Q.
      - apply Qmult_lt_r; assumption.
      - apply Qmult_lt_l; assumption. }
    lra.
  - apply Qnot_le_lt. intros Hc.
    assert (Pp * B <= X * D)%Q.
    { apply Qle_trans with (Pp * D)%Q.
      - apply Qmult_le_l; assumption.
      - apply Qmult_le_r; assumption. }
    lra.
Qed.

Lemma binade_spec (x : Q) :
  (0 < x)%Q -> (2 ^ binade x <= x /\ x < 2 ^ (binade x + 1))%Q.
Proof.
  intros Hx. pose proof (binade_bounds x Hx) as [Hlo Hhi].
  unfold binade.
  set (e := Z.log2 (Qnum x) - Z.log2 (Zpos (Qden x))) in *.
  destruct (Qle_bool (2 ^ e) x) eqn:E.
  - apply Qle_bool_iff in E. split; assumption.
  - split; [assumption|].
    replace (e - 1 + 1) with e by lia.
    apply Qnot_le_lt. intros Hc. apply Qle_bool_iff in Hc. congruence.
Qed.

Lemma binade_unique (x : Q) (e : Z) :
  (2 ^ e <= x)%Q -> (x < 2 ^ (e + 1))%Q -> binade x = e.
Proof.
  intros Hlo Hhi.
  assert (Hx : (0 < x)%Q).
  { eapply Qlt_le_trans; [apply (two_power_pos e)|assumption]. }
  pose proof (binade_spec x Hx) as [Hlo' Hhi'].
  assert (e < binade x + 1).
  { apply Qpower_lt_compat_l_inv with (q := 2%Q); [|reflexivity].
    eapply Qle_lt_trans; eassumption. }
  assert (binade x < e + 1).
  { apply Qpower_lt_compat_l_inv with (q := 2%Q); [|reflexivity].
    eapply Qle_lt_trans; eassumption. }
  lia.
Qed.

Lemma binade_monotone (x y : Q) :
  (0 < x)%Q -> (x <= y)%Q -> binade x <= binade y.
Proof.
  intros Hx Hxy.
  assert (Hy : (0 < y)%Q) by (eapply Qlt_le_trans; eassumption).
  pose proof (binade_spec x Hx) as [Hlo _].
  pose proof (binade_spec y Hy) as [_ Hhi].
  assert (binade x < binade y + 1); [|lia].
  apply Qpower_lt_compat_l_inv with (q := 2%Q); [|reflexivity].
  eapply Qle_lt_trans; [|eassumption].
  eapply Qle_trans; eassumption.
Qed.


Lemma round_half_even_bounds (x : Q) :
  Qfloor x <= round_half_even x <= Qfloor x + 1.
Proof.
  unfold round_half_even.
  destruct (x - inject_Z (Qfloor x) ?= 1 # 2)%Q; [destruct (Z.even _)| |]; lia.
Qed.

Lemma round_half_even_integer (n : Z) : round_half_even (inject_Z n) = n.
Proof.
  unfold round_half_even. rewrite Qfloor_Z.
  replace (inject_Z n - inject_Z n ?= 1 # 2)%Q with Lt; [reflexivity|].
  symmetry. apply (proj1 (Qlt_alt _ _)). generalize (inject_Z n). intros q. lra.
Qed.

Lemma round_half_even_monotone (x y : Q) :
  (x <= y)%Q -> round_half_even x <= round_half_even y.
Proof.
  intros Hxy.
  pose proof (Qfloor_resp_le _ _ Hxy) as Hf.
  destruct (Z.eq_dec (Qfloor x) (Qfloor y)) as [E|N].
  - unfold round_half_even. rewrite <- E.
    destruct (x - inject_Z (Qfloor x) ?= 1 # 2)%Q eqn:Cx;
      destruct (y - inject_Z (Qfloor x) ?= 1 # 2)%Q eqn:Cy;
      try (destruct (Z.even (Qfloor x))); try lia; exfalso;
      try apply (proj2 (Qeq_alt _ _)) in Cx; try apply (proj2 (Qlt_alt _ _)) in Cx;
      try apply (proj2 (Qgt_alt _ _)) in Cx;
      try apply (proj2 (Qeq_alt _ _)) in Cy; try apply (proj2 (Qlt_alt _ _)) in Cy;
      try apply (proj2 (Qgt_alt _ _)) in Cy;
      lra.
  - pose proof (round_half_even_bounds x). pose proof (round_half_even_bounds y).
    lia.
Qed.

Lemma round_to_53_bits_monotone (x y : Q) :
  (0 < x)%Q -> (x <= y)%Q -> (round_to_53_bits x <= round_to_53_bits y)%Q.
Proof.
  intros Hx Hxy.
  assert (Hy : (0 < y)%Q) by (eapply Qlt_le_trans; eassumption).
  pose proof (binade_monotone x y Hx Hxy) as He.
  pose proof (binade_spec x Hx) as [Hxlo Hxhi].
  pose proof (binade_spec y Hy) as [Hylo Hyhi].
  unfold round_to_53_bits.
  pose proof (two_power_pos (binade x - 52)) as Hux.
  pose proof (two_power_pos (binade y - 52)) as Huy.
  destruct (Z.eq_dec (binade x) (binade y)) as [E|N].
  - rewrite <- E. apply Qmult_le_r; [assumption|].
    rewrite <- Zle_Qle. apply round_half_even_monotone.
    apply Qmult_le_r; [apply Qinv_lt_0_compat; assumption|assumption].
  - (* a binade apart: [2 ^ (binade x + 1)] lies between the two results *)
    apply Qle_trans with (2 ^ (binade x + 1))%Q; [|apply Qle_trans with (2 ^ binade y)%Q].
    + assert (Hm : round_half_even (x / 2 ^ (binade x - 52)) <= 2 ^ 53).
      { rewrite <- (round_half_even_integer (2 ^ 53)).
        apply round_half_even_monotone.
        apply Qle_shift_div_r; [assumption|].
        apply Qlt_le_weak. eapply Qlt_le_trans; [apply Hxhi|].
        rewrite two_power_inject by lia.
        rewrite <- Qpower_plus by discriminate.
        apply Qpower_le_compat_l; [lia|discriminate]. }
      apply Qle_trans with (inject_Z (2 ^ 53) * 2 ^ (binade x - 52))%Q.
      * apply Qmult_le_r; [assumption|]. rewrite <- Zle_Qle. exact Hm.
      * rewrite two_power_inject by lia.
        rewrite <- Qpower_plus by discriminate.
        apply Qpower_le_compat_l; [lia|discriminate].
    + apply Qpower_le_compat_l; [lia|discriminate].
    + assert (Hm : 2 ^ 52 <= round_half_even (y / 2 ^ (binade y - 52))).
      { rewrite <- (round_half_even_integer (2 ^ 52)) at 1.
        apply round_half_even_monotone.
        apply Qle_shift_div_l; [assumption|].
        eapply Qle_trans; [|apply Hylo].
        rewrite two_power_inject by lia.
        rewrite <- Qpower_plus by discriminate.
        apply Qpower_le_compat_l; [lia|discriminate]. }
      apply Qle_trans with (inject_Z (2 ^ 52) * 2 ^ (binade y - 52))%Q.
      * rewrite two_power_inject by lia.
        rewrite <- Qpower_plus by discriminate.
        apply Qpower_le_compat_l; [lia|discriminate].
      * apply Qmult_le_r; [assumption|]. rewrite <- Zle_Qle. exact Hm.
Qed.

Lemma round_to_53_bits_pos (x : Q) :
  (0 < x)%Q -> (0 < round_to_53_bits x)%Q.
Proof.
  intros Hx. pose proof (binade_spec x Hx) as [Hlo _].
  pose proof (two_power_pos (binade x - 52)) as Hu.
  unfold round_to_53_bits.
  assert (Hm : 2 ^ 52 <= round_half_even (x / 2 ^ (binade x - 52))).
  { rewrite <- (round_half_even_integer (2 ^ 52)) at 1.
    apply round_half_even_monotone.
    apply Qle_shift_div_l; [assumption|].
    eapply Qle_trans; [|apply Hlo].
    rewrite two_power_inject by lia.
    rewrite <- Qpower_plus by discriminate.
    apply Qpower_le_compat_l; [lia|discriminate]. }
  apply Qmult_lt_0_compat; [|assumption].
  rewrite <- (Zlt_Qlt 0). lia.
Qed.

Lemma fl_pos (x : Q) : (0 < x)%Q -> fl x = Qred (round_to_53_bits x).
Proof.
  intros Hx. unfold fl. apply (proj1 (Qgt_alt _ _)) in Hx. rewrite Hx. reflexivity.
Qed.

Lemma fl_neg (x : Q) : (x < 0)%Q -> fl x = Qred (- round_to_53_bits (- x)).
Proof.
  intros Hx. unfold fl. apply (proj1 (Qlt_alt _ _)) in Hx. rewrite Hx. reflexivity.
Qed.

Lemma fl_zero (x : Q) : (x == 0)%Q -> fl x = 0%Q.
Proof.
  intros Hx. unfold fl. apply (proj1 (Qeq_alt _ _)) in Hx. rewrite Hx. reflexivity.
Qed.

Lemma fl_sign (x : Q) :
  ((0 < x -> 0 < fl x) /\ (x < 0 -> fl x < 0) /\ (x == 0 -> fl x == 0))%Q.
Proof.
  repeat split; intros Hx.
  - rewrite (fl_pos x Hx), Qred_correct. apply round_to_53_bits_pos, Hx.
  - rewrite (fl_neg x Hx), Qred_correct.
    assert (H : (0 < - x)%Q) by lra.
    pose proof (round_to_53_bits_pos _ H). lra.
  - rewrite (fl_zero x Hx). reflexivity.
Qed.

Theorem fl_monotone (x y : Q) : (x <= y)%Q -> (fl x <= fl y)%Q.
Proof.
  intros Hxy.
  destruct (fl_sign x) as (Hxp & Hxn & Hxz).
  destruct (fl_sign y) as (Hyp & Hyn & Hyz).
  destruct (Q_dec x 0) as [[Hx|Hx]|Hx]; destruct (Q_dec y 0) as [[Hy|Hy]|Hy];
    try lra;
    try (specialize (Hxp Hx)); try (specialize (Hxn Hx)); try (specialize (Hxz Hx));
    try (specialize (Hyp Hy)); try (specialize (Hyn Hy)); try (specialize (Hyz Hy));
    try lra.
  - rewrite (fl_neg x Hx), (fl_neg y Hy), !Qred_correct.
    apply Qopp_le_compat. apply round_to_53_bits_monotone; lra.
  - rewrite (fl_pos x Hx), (fl_pos y Hy), !Qred_correct.
    apply round_to_53_bits_monotone; lra.
Qed.

Lemma fl_nonneg (x : Q) : (0 <= x)%Q -> (0 <= fl x)%Q.
Proof. intros Hx. apply (fl_monotone 0 x Hx). Qed.

Lemma fl_proper (x y : Q) : (x == y)%Q -> fl x = fl y.
Proof.
  intros Hxy.
  assert (H : (fl x == fl y)%Q).
  { apply Qle_antisym; apply fl_monotone; rewrite Hxy; apply Qle_refl. }
  apply Qred_complete in H.
  assert (Hr : forall z, Qred (fl z) = fl z).
  { intros z. unfold fl. destruct (z ?= 0)%Q; [reflexivity| |];
      apply Qred_complete, Qred_correct. }
  rewrite <- (Hr x), <- (Hr y). exact H.
Qed.

Lemma round_half_even_proper (x y : Q) :
  (x == y)%Q -> round_half_even x = round_half_even y.
Proof.
  intros Hxy. apply Z.le_antisymm; apply round_half_even_monotone;
    rewrite Hxy; apply Qle_refl.
Qed.

Lemma two_power_scaled (n k : Z) :
  0 <= n -> (inject_Z (2 ^ n) * 2 ^ k == 2 ^ (n + k))%Q.
Proof.
  intros Hn. rewrite two_power_inject by assumption.
  rewrite <- Qpower_plus by discriminate. reflexivity.
Qed.

Lemma round_to_53_bits_range (x : Q) :
  (0 < x)%Q ->
  2 ^ 52 <= round_half_even (x / 2 ^ (binade x - 52)) <= 2 ^ 53.
Proof.
  intros Hx. pose proof (binade_spec x Hx) as [Hlo Hhi].
  pose proof (two_power_pos (binade x - 52)) as Hu.
  split.
  - rewrite <- (round_half_even_integer (2 ^ 52)) at 1.
    apply round_half_even_monotone.
    apply Qle_shift_div_l; [assumption|].
    eapply Qle_trans; [|apply Hlo].
    rewrite two_power_scaled by lia.
    apply Qpower_le_compat_l; [lia|discriminate].
  - rewrite <- (round_half_even_integer (2 ^ 53)).
    apply round_half_even_monotone.
    apply Qle_shift_div_r; [assumption|].
    apply Qlt_le_weak. eapply Qlt_le_trans; [apply Hhi|].
    rewrite two_power_scaled by lia.
    apply Qpower_le_compat_l; [lia|discriminate].
Qed.

Lemma round_to_53_bits_proper (x y : Q) :
  (0 < x)%Q -> (x == y)%Q -> (round_to_53_bits x == round_to_53_bits y)%Q.
Proof.
  intros Hx Hxy. pose proof (binade_spec x Hx) as [Hlo Hhi].
  assert (Hb : binade y = binade x)
    by (apply binade_unique; rewrite <- Hxy; assumption).
  unfold round_to_53_bits. rewrite Hb.
  assert (Hd : (y / 2 ^ (binade x - 52) == x / 2 ^ (binade x - 52))%Q)
    by (generalize (2 ^ (binade x - 52))%Q; intros u; rewrite Hxy; reflexivity).
  rewrite (round_half_even_proper _ _ Hd). reflexivity.
Qed.

(** A multiple [m * 2 ^ k] with [2 ^ 52 <= m < 2 ^ 53] is its own rounding. *)
Lemma round_to_53_bits_exact (m k : Z) :
  2 ^ 52 <= m < 2 ^ 53 ->
  (round_to_53_bits (inject_Z m * 2 ^ k) == inject_Z m * 2 ^ k)%Q.
Proof.
  intros [Hlo Hhi].
  pose proof (two_power_pos k) as Hk.
  assert (Hb : binade (inject_Z m * 2 ^ k) = 52 + k).
  { apply binade_unique.
    - rewrite <- (two_power_scaled 52 k) by lia.
      apply Qmult_le_r; [assumption|]. rewrite <- Zle_Qle. assumption.
    - replace (52 + k + 1) with (53 + k) by lia.
      rewrite <- (two_power_scaled 53 k) by lia.
      apply Qmult_lt_r; [assumption|]. rewrite <- Zlt_Qlt. assumption. }
  unfold round_to_53_bits. rewrite Hb.
  replace (52 + k - 52) with k by lia.
  rewrite (round_half_even_proper _ (inject_Z m)).
  - rewrite round_half_even_integer. reflexivity.
  - field. intros Hc. rewrite Hc in Hk. discriminate.
Qed.

(** Rounding a positive number twice is rounding it once. *)
Lemma round_to_53_bits_idempotent (x : Q) :
  (0 < x)%Q -> (round_to_53_bits (round_to_53_bits x) == round_to_53_bits x)%Q.
Proof.
  intros Hx.
  pose proof (round_to_53_bits_range x Hx) as [Hlo Hhi].
  pose proof (round_to_53_bits_pos x Hx) as Hpos.
  unfold round_to_53_bits at 2 3. unfold round_to_53_bits in Hpos.
  set (m := round_half_even (x / 2 ^ (binade x - 52))) in *.
  set (k := binade x - 52) in *.
  destruct (Z.eq_dec m (2 ^ 53)) as [E|N].
  - (* the result is the next power of two: [2 ^ 52 * 2 ^ (k + 1)] *)
    assert (Hm : (inject_Z m * 2 ^ k == inject_Z (2 ^ 52) * 2 ^ (k + 1))%Q).
    { rewrite E, (two_power_scaled 53 k), (two_power_scaled 52 (k + 1)) by lia.
      f_equiv. lia. }
    rewrite (round_to_53_bits_proper _ _ Hpos Hm), Hm.
    apply round_to_53_bits_exact. lia.
  - apply round_to_53_bits_exact. lia.
Qed.

Theorem fl_idempotent (x : Q) : fl (fl x) = fl x.
Proof.
  destruct (fl_sign x) as (Hxp & Hxn & Hxz).
  destruct (Q_dec x 0) as [[Hx|Hx]|Hx].
  - specialize (Hxn Hx). rewrite (fl_neg _ Hxn). rewrite (fl_neg x Hx) at 2.
    apply Qred_complete.
    assert (H0 : (0 < - x)%Q) by lra.
    assert (H1 : (- fl x == round_to_53_bits (- x))%Q).
    { rewrite (fl_neg x Hx), Qred_correct. ring. }
    pose proof (round_to_53_bits_pos _ H0) as Hpos.
    assert (Hpos' : (0 < - fl x)%Q) by lra.
    rewrite (round_to_53_bits_proper _ _ Hpos' H1).
    rewrite (round_to_53_bits_idempotent _ H0). reflexivity.
  - specialize (Hxp Hx). rewrite (fl_pos _ Hxp). rewrite (fl_pos x Hx) at 2.
    apply Qred_complete.
    assert (H1 : (fl x == round_to_53_bits x)%Q).
    { rewrite (fl_pos x Hx), Qred_correct. reflexivity. }
    rewrite (round_to_53_bits_proper _ _ Hxp H1).
    apply (round_to_53_bits_idempotent _ Hx).
  - rewrite (fl_zero x Hx). reflexivity.
Qed.

Lemma fmul_monotone_r (x y1 y2 : Q) :
  (0 <= x)%Q -> (y1 <= y2)%Q -> (fmul x y1 <= fmul x y2)%Q.
Proof.
  intros Hx Hy. apply fl_monotone.
  rewrite !(Qmult_comm x). apply Qmult_le_compat_r; assumption.
Qed.

Lemma fmul_monotone_l (x1 x2 y : Q) :
  (0 <= y)%Q -> (x1 <= x2)%Q -> (fmul x1 y <= fmul x2 y)%Q.
Proof. intros Hy Hx. apply fl_monotone, Qmult_le_compat_r; assumption. Qed.

Lemma fmul_nonneg (x y : Q) : (0 <= x)%Q -> (0 <= y)%Q -> (0 <= fmul x y)%Q.
Proof. intros Hx Hy. apply fl_nonneg, Qmult_le_0_compat; assumption. Qed.


Lemma fadd_monotone_r (x y1 y2 : Q) :
  (y1 <= y2)%Q -> (fadd x y1 <= fadd x y2)%Q.
Proof. intros Hy. apply fl_monotone. lra. Qed.

Lemma fmul_zero_r (x y : Q) : (y == 0)%Q -> fmul x y = 0%Q.
Proof. intros Hy. apply fl_zero. rewrite Hy. ring. Qed.

Lemma fmul_one_r (x : Q) : fmul (fl x) 1 = fl x.
Proof.
  unfold fmul. rewrite (fl_proper (fl x * 1)%Q (fl x)) by ring.
  apply fl_idempotent.
Qed.

(** ** Recommendation and batting average *)

Lemma Qgtb_true (x y : Q) : Qgtb x y = true <-> (y < x)%Q.
Proof.
  unfold Qgtb. rewrite negb_true_iff, <- not_true_iff_false, Qle_bool_iff.
  split; [apply Qnot_le_lt | apply Qlt_not_le].
Qed.

Lemma Qgtb_false (x y : Q) : Qgtb x y = false <-> (x <= y)%Q.
Proof. unfold Qgtb. rewrite negb_false_iff. apply Qle_bool_iff. Qed.

Lemma Qltb_true (x y : Q) : Qltb x y = true <-> (x < y)%Q.
Proof. apply Qgtb_true. Qed.

Lemma Qltb_false (x y : Q) : Qltb x y = false <-> (y <= x)%Q.
Proof. apply Qgtb_false. Qed.


Lemma Math_round_monotone (x y : Q) :
  (x <= y)%Q -> Math_round x <= Math_round y.
Proof.
  intros Hxy. unfold Math_round. apply Qfloor_resp_le. lra.
Qed.










(** The estimates are doubles.  In exact arithmetic 50 x 1.7 x 1.6 is 136,
    which a current bid of 136 would not undercut; the code computes
    136.00000000000003, so the current bid lies between the two estimates
    below, and the recommendation drops from 141 to 136. *)
Example current_bid_between_double_estimates :
  let p := mkPlayer "p-1" "R. Sharma" batter domestic 50
             (mkPlayerStats 101 None None None None) in
  let ts := sample_team "team-1" 10000 in
  let e1 := (estimateAfterBudgetCap (with_battingAverage p 20) ts []).1 in
  let e2 := (estimateAfterBudgetCap (with_battingAverage p 45) ts []).1 in
  e1 = 104%Q
  /\ e2 = (4785074604081153 # 35184372088832)%Q
  /\ (136 < e2)%Q
  /\ Q_of_float (50 * (1 + 0.3 + 0.4) * (1 + 3 * 0.2)) = Some e2
  /\ recommendedMaxBid
       (calculateBidRecommendation (with_battingAverage p 20) ts []
          (Some 136)) = 141
  /\ recommendedMaxBid
       (calculateBidRecommendation (with_battingAverage p 45) ts []
          (Some 136)) = 136.
Proof. vm_compute. repeat split. Qed.



(** ** Budget invariant *)

Lemma validateBudget_valid ts amt :
  errors_of (validateBudget ts amt) = [] -> amt <= remainingBudget ts.
Proof.
  unfold validateBudget.
  destruct (amt >? remainingBudget ts) eqn:E; [discriminate|].
  intros _. lia.
Qed.

Lemma validatePlayerAcquisition_valid_budget ts p amt allPlayers :
  isValid (validatePlayerAcquisition ts p amt allPlayers) = true ->
  amt <= remainingBudget ts.
Proof.
  intros Hvalid. apply validateBudget_valid.
  pose proof (validatePlayerAcquisitionWith_errors ts p amt allPlayers
                DEFAULT_SQUAD_CONSTRAINTS) as Herr.
  fold (validatePlayerAcquisition ts p amt allPlayers) in Herr.
  destruct (validatePlayerAcquisition ts p amt allPlayers);
    [|discriminate Hvalid].
  cbn in Herr. unfold all_violations in Herr. symmetry in Herr.
  apply app_eq_nil in Herr. apply Herr.
Qed.

Lemma validateBid_valid b team amt allPlayers :
  isValid (validateBid b team amt allPlayers) = true ->
  exists teamState,
    find (fun t => bool_decide (teamId t = team)) (bidding_teams b)
      = Some teamState
    /\ getMinimumValidBid b <= amt
    /\ amt <= remainingBudget teamState.
Proof.
  unfold validateBid.
  destruct (find _ (bidding_teams b)) as [teamState|]; [|discriminate].
  cbn zeta. destruct (amt <? getMinimumValidBid b) eqn:E; [discriminate|].
  intros Hvalid. exists teamState. split; [reflexivity|].
  split; [lia|]. eapply validatePlayerAcquisition_valid_budget, Hvalid.
Qed.

(** With distinct ids, the team [find] returns is the only one that
    carries the id. *)
Lemma find_team_unique (ts : list TeamState) (team : string) (found : TeamState) :
  NoDup (map teamId ts) ->
  find (fun t => bool_decide (teamId t = team)) ts = Some found ->
  Forall (fun t => teamId t = team -> t = found) ts.
Proof.
  induction ts as [|t ts IH]; intros Hnd Hfind; [constructor|].
  cbn in Hnd. apply NoDup_cons in Hnd as [Hnotin Hnd].
  cbn in Hfind. destruct (bool_decide (teamId t = team)) eqn:E.
  - injection Hfind as <-. apply bool_decide_eq_true in E.
    constructor; [reflexivity|].
    clear IH Hnd. induction ts as [|t' ts IH]; constructor.
    + intros Heq. exfalso. apply Hnotin. cbn.
      apply elem_of_cons. left. congruence.
    + apply IH. intros Hin. apply Hnotin. cbn.
      apply elem_of_cons. right. exact Hin.
  - apply bool_decide_eq_false in E.
    constructor; [intros Heq; contradiction|].
    apply IH; assumption.
Qed.

Lemma updateTeamsAfterSale_ids ts winner pid price :
  map teamId (updateTeamsAfterSale ts winner pid price) = map teamId ts.
Proof.
  unfold updateTeamsAfterSale.
  induction ts as [|t ts IH]; cbn; [reflexivity|].
  rewrite IH. destruct (bool_decide (teamId t = winner)); reflexivity.
Qed.

Lemma updateTeamsAfterSale_budgets ts winner pid price :
  budgets_nonneg ts ->
  Forall (fun t => teamId t = winner -> price <= remainingBudget t) ts ->
  budgets_nonneg (updateTeamsAfterSale ts winner pid price).
Proof.
  unfold budgets_nonneg, updateTeamsAfterSale.
  induction 1 as [|t ts Ht Hts IH]; intros Hpay; cbn; constructor.
  - apply Forall_cons in Hpay as [Hpay _].
    destruct (bool_decide (teamId t = winner)) eqn:E; [|exact Ht].
    apply bool_decide_eq_true in E. cbn. specialize (Hpay E). lia.
  - apply IH. apply Forall_cons in Hpay as [_ Hpay]. exact Hpay.
Qed.

Lemma createInitialState_invariant (ts : list Team) :
  NoDup (map team_id ts) ->
  Forall (fun t => 0 <= budget t) ts ->
  auction_invariant (createInitialState ts).
Proof.
  intros Hnd Hbudget. unfold auction_invariant, createInitialState. cbn.
  split; [|split; [|exact I]].
  - rewrite map_map. cbn. exact Hnd.
  - clear Hnd. unfold budgets_nonneg.
    induction Hbudget as [|t l Ht Hl IH]; cbn; constructor; assumption.
Qed.

Lemma soldStateOf_invariant (b : BiddingAuctionState) (bid : CurrentBid) :
  currentBid b = Some bid ->
  auction_invariant (BiddingState b) ->
  auction_invariant (soldStateOf b bid).
Proof.
  intros Hbid (Hnd & Hbudget & Hpay). cbn in Hnd, Hbudget, Hpay.
  rewrite Hbid in Hpay.
  unfold auction_invariant, soldStateOf. cbn.
  split; [|split; [|exact I]].
  - rewrite updateTeamsAfterSale_ids. exact Hnd.
  - apply updateTeamsAfterSale_budgets; assumption.
Qed.

Lemma auctionReducer_invariant (s : AuctionState) (a : AuctionAction) :
  auction_invariant s -> dispatched s a ->
  auction_invariant (auctionReducer s a).
Proof.
  intros Hinv Hdisp. unfold auctionReducer.
  destruct Hdisp as [b team amt allPlayers Hvalid | s player | s reason
                     | s | s | s | s | s].
  - (* an accepted bid *)
    destruct Hinv as (Hnd & Hbudget & _). cbn in Hnd, Hbudget.
    apply validateBid_valid in Hvalid as (found & Hfind & _ & Hle).
    split; [exact Hnd|]. split; [exact Hbudget|]. cbn.
    pose proof (find_team_unique _ _ _ Hnd Hfind) as Huniq.
    clear Hfind Hnd Hbudget.
    induction Huniq as [|t ts Ht Hts IH]; constructor; [|exact IH].
    intros Heq. rewrite (Ht Heq). exact Hle.
  - (* START_BIDDING *)
    destruct s; exact Hinv.
  - (* INVALID_BID *)
    destruct s; exact Hinv.
  - (* TIME_EXPIRED *)
    destruct s as [| b | | |]; cbn; try exact Hinv.
    destruct (currentBid b) as [bid|] eqn:Hbid; cbn.
    + apply soldStateOf_invariant; assumption.
    + destruct Hinv as (Hnd & Hbudget & _). repeat split; assumption.
  - (* PLAYER_SOLD *)
    destruct s as [| b | | |]; cbn; try exact Hinv.
    destruct (currentBid b) as [bid|] eqn:Hbid; cbn; [|exact Hinv].
    apply soldStateOf_invariant; assumption.
  - (* PLAYER_UNSOLD *)
    destruct s as [| b | | |]; cbn; try exact Hinv.
    destruct Hinv as (Hnd & Hbudget & _). repeat split; assumption.
  - (* RESET_TO_IDLE *)
    destruct Hinv as (Hnd & Hbudget & _). cbn. repeat split; assumption.
  - (* TIMER_TICK *)
    destruct s as [| b | | |]; exact Hinv.
Qed.

Lemma reachable_invariant (ts : list Team) (s : AuctionState) :
  NoDup (map team_id ts) ->
  Forall (fun t => 0 <= budget t) ts ->
  reachable ts s ->
  auction_invariant s.
Proof.
  intros Hnd Hbudget Hreach.
  induction Hreach as [|s a Hreach IH Hdisp].
  - apply createInitialState_invariant; assumption.
  - apply auctionReducer_invariant; assumption.
Qed.

(** C1, as stated, fails for a team list in which two teams carry the same
    id: [validateBid] checks the bid against the first team with that id,
    and the sale charges every team with it.  After one accepted bid of 50
    and the expiry of the timer, the second "team-1", which started with
    10, is left with -40. *)
Lemma repeated_team_id_overdraws_budget :
  let ts := [ mkTeam "team-1" "Mumbai" "MUM" 100 "#004BA0";
              mkTeam "team-1" "Mumbai B" "MUB" 10 "#004BA0" ] in
  let s := dispatchAll (createInitialState ts)
             [ START_BIDDING sample_player; PLACE_BID "team-1" 50;
               TIME_EXPIRED ] in
  reachable ts s
  /\ map remainingBudget (teams s) = [ 50; -40 ]
  /\ ~ Forall (fun t => 0 <= remainingBudget t) (teams s).
Proof.
  cbn zeta. split; [|split].
  - cbn [dispatchAll fold_left].
    apply reachable_dispatch; [|apply dispatched_TIME_EXPIRED].
    apply reachable_dispatch.
    + apply reachable_dispatch;
        [apply reachable_initial | apply dispatched_START_BIDDING].
    + refine (dispatched_bid
                (mkBidding sample_player None 60 []
                   [ sample_team "team-1" 100; sample_team "team-1" 10 ]
                   (Some "Bidding started for R. Sharma"))
                "team-1" 50 [] _).
      vm_compute. reflexivity.
  - vm_compute. reflexivity.
  - intros H. apply Forall_cons in H as [_ H].
    apply Forall_cons in H as [H _]. vm_compute in H. apply H. reflexivity.
Qed.

(** C1 (amended). For an auction over teams with distinct ids and
    non-negative starting budgets, every state reachable from the initial
    state by dispatched actions -- each [PLACE_BID] accepted by
    [validateBid] on the state it is dispatched to -- has every team's
    remaining budget at or above 0. *)
Theorem remaining_budget_never_negative
    (ts : list Team) (s : AuctionState) :
  NoDup (map team_id ts) ->
  Forall (fun t => 0 <= budget t) ts ->
  reachable ts s ->
  Forall (fun t => 0 <= remainingBudget t) (teams s).
Proof.
  intros Hnd Hbudget Hreach.
  apply (reachable_invariant ts s Hnd Hbudget Hreach).
Qed.

Lemma remaining_budget_never_negative_witness :
  Forall (fun t => 0 <= remainingBudget t) (teams sample_round).
Proof.
  refine (remaining_budget_never_negative sample_teams sample_round _ _ _).
  - apply (bool_decide_unpack _). vm_compute. exact I.
  - repeat constructor; cbn; lia.
  - unfold sample_round.
    apply reachable_dispatch; [|apply dispatched_TIME_EXPIRED].
    apply reachable_dispatch.
    + apply reachable_dispatch;
        [apply reachable_initial | apply dispatched_START_BIDDING].
    + refine (dispatched_bid
                (mkBidding sample_player None 60 []
                   [ sample_team "team-1" 500; sample_team "team-3" 400 ]
                   (Some "Bidding started for R. Sharma"))
                "team-3" 120 [] _).
      vm_compute. reflexivity.
Defined.

Example sample_round_budgets :
  map remainingBudget (teams sample_round) = [ 500; 280 ].
Proof. vm_compute. reflexivity. Qed.

(** A negative starting budget is a negative remaining budget from the
    first state on. *)
Example negative_starting_budget_is_kept :
  map remainingBudget
    (teams (createInitialState [ mkTeam "team-1" "Mumbai" "MUM" (-5)
                                   "#004BA0" ]))
  = [ -5 ].
Proof. reflexivity. Qed.

(** The repeated id step by step: the bid is validated against the first
    team carrying the id, the sale charges every team carrying it. *)
Example shared_team_id_overdraws_second_team :
  let ts := [ mkTeam "team-1" "Mumbai" "MUM" 100 "#004BA0";
              mkTeam "team-1" "Mumbai B" "MUB" 10 "#004BA0" ] in
  let b := mkBidding sample_player None 60 []
             [ sample_team "team-1" 100; sample_team "team-1" 10 ]
             (Some "Bidding started for R. Sharma") in
  auctionReducer (createInitialState ts) (START_BIDDING sample_player)
    = BiddingState b
  /\ validateBid b "team-1" 50 [] = Valid
  /\ map remainingBudget
       (teams (auctionReducer
                 (auctionReducer (BiddingState b) (PLACE_BID "team-1" 50))
                 TIME_EXPIRED))
     = [ 50; -40 ].
Proof. vm_compute. repeat split. Qed.

(* ========================================================================= *)
(** * Further properties of the auction engine, validators, calculator and hooks *)

(** ** The countdown *)

Lemma tick_on_bidding (b : BiddingAuctionState) :
  auctionReducer (BiddingState b) TIMER_TICK
  = BiddingState (with_timeRemaining b (Z.max 0 (timeRemaining b - 1))).
Proof.
  unfold auctionReducer, with_timeRemaining. cbn.
  destruct (timeRemaining b - 1 <=? 0) eqn:E; do 2 f_equal; lia.
Qed.

(** X1. [TIMER_TICK] only counts down: after [n >= 1] ticks on a
    bidding-phase state the state is still in the bidding phase, its
    [timeRemaining] is [max 0 (t - n)] -- floored at 0 -- and player, bid,
    teams, history and message are untouched.  A tick never sells. *)
Theorem ticks_count_down (n : nat) (b : BiddingAuctionState) :
  (1 <= n)%nat ->
  dispatchAll (BiddingState b) (repeat TIMER_TICK n)
  = BiddingState
      (with_timeRemaining b (Z.max 0 (timeRemaining b - Z.of_nat n))).
Proof.
  intros Hn. revert b.
  induction n as [|n IH]; intros b; [lia|].
  cbn [repeat dispatchAll fold_left]. rewrite tick_on_bidding.
  destruct n as [|n].
  - reflexivity.
  - unfold dispatchAll in IH. rewrite IH by lia.
    unfold with_timeRemaining. cbn. do 2 f_equal. lia.
Qed.

Lemma ticks_count_down_witness :
  dispatchAll (BiddingState (sample_bidding None [])) (repeat TIMER_TICK 40)
  = BiddingState (with_timeRemaining (sample_bidding None []) 0).
Proof.
  refine (ticks_count_down 40 (sample_bidding None []) _). lia.
Defined.

(** ** What a run never changes *)

Lemma auctionReducer_history_step (s : AuctionState) (a : AuctionAction) :
  completedPlayerIds (auctionReducer s a) = completedPlayerIds s
  \/ exists b, s = BiddingState b
               /\ completedPlayerIds (auctionReducer s a)
                  = completedPlayerIds s ++ [ player_id (currentPlayer b) ].
Proof.
  unfold auctionReducer.
  destruct a, s as [| b | | |]; cbn; auto;
    try (destruct (currentBid b); cbn; eauto); eauto.
Qed.

Lemma dispatchAll_history_prefix (s : AuctionState) (actions : list AuctionAction) :
  completedPlayerIds s `prefix_of` completedPlayerIds (dispatchAll s actions).
Proof.
  revert s. induction actions as [|a actions IH]; intros s; cbn.
  - reflexivity.
  - etrans; [|apply IH].
    destruct (auctionReducer_history_step s a) as [-> | (b & -> & ->)].
    + reflexivity.
    + apply prefix_app_r. reflexivity.
Qed.

(** X2. The history of completed players is append-only: whatever actions
    are dispatched, the old [completedPlayerIds] is a prefix of the new one,
    and each action adds at most one id. *)
Theorem history_is_append_only (s : AuctionState) (actions : list AuctionAction) :
  completedPlayerIds s `prefix_of` completedPlayerIds (dispatchAll s actions)
  /\ (length (completedPlayerIds (dispatchAll s actions))
      <= length (completedPlayerIds s) + length actions)%nat.
Proof.
  split; [apply dispatchAll_history_prefix|].
  revert s. induction actions as [|a actions IH]; intros s; cbn; [lia|].
  specialize (IH (auctionReducer s a)). unfold dispatchAll in IH.
  destruct (auctionReducer_history_step s a) as [Heq | (b & -> & Heq)];
    rewrite Heq in IH.
  - lia.
  - rewrite length_app in IH. cbn in IH |- *. lia.
Qed.

Lemma auctionReducer_team_ids (s : AuctionState) (a : AuctionAction) :
  map teamId (teams (auctionReducer s a)) = map teamId (teams s).
Proof.
  unfold auctionReducer.
  destruct a, s as [| b | | |]; cbn; try reflexivity;
    destruct (currentBid b); cbn; try reflexivity;
    apply updateTeamsAfterSale_ids.
Qed.

(** X3. No action adds, removes, reorders or renames teams: the list of
    team ids is the same after any run. *)
Theorem team_roster_is_stable (s : AuctionState) (actions : list AuctionAction) :
  map teamId (teams (dispatchAll s actions)) = map teamId (teams s).
Proof.
  revert s. induction actions as [|a actions IH]; intros s; cbn;
    [reflexivity|].
  unfold dispatchAll in IH. rewrite IH. apply auctionReducer_team_ids.
Qed.

(** ** Money is conserved *)

Lemma team_spent_finalize (t : TeamState) (pid : string) (price : Z) :
  team_spent (finalizePlayerPurchase t pid price) = team_spent t + price.
Proof.
  unfold team_spent, getSquadSummary. cbn.
  rewrite fold_left_app. reflexivity.
Qed.

Lemma updateTeamsAfterSale_funds ts winner pid price :
  map (fun t => remainingBudget t + team_spent t)
      (updateTeamsAfterSale ts winner pid price)
  = map (fun t => remainingBudget t + team_spent t) ts.
Proof.
  unfold updateTeamsAfterSale.
  induction ts as [|t ts IH]; cbn [map]; [reflexivity|].
  rewrite IH. f_equal.
  destruct (bool_decide (teamId t = winner)); [|reflexivity].
  rewrite team_spent_finalize. cbn. lia.
Qed.

Lemma auctionReducer_funds (s : AuctionState) (a : AuctionAction) :
  map (fun t => remainingBudget t + team_spent t) (teams (auctionReducer s a))
  = map (fun t => remainingBudget t + team_spent t) (teams s).
Proof.
  unfold auctionReducer.
  destruct a, s as [| b | | |]; cbn; try reflexivity;
    destruct (currentBid b); cbn; try reflexivity;
    apply updateTeamsAfterSale_funds.
Qed.

(** X4. Money is conserved: in every state of every run from the initial
    state, for every team the squad summary's [budgetRemaining] plus
    [budgetUsed] equals the team's starting budget -- whether or not the bids
    were validated. *)
Theorem budget_plus_spending_is_constant
    (ts : list Team) (actions : list AuctionAction)
    (allPlayers : list Player) (constraints : SquadConstraints) :
  map (fun t =>
         let summary := getSquadSummary t allPlayers constraints in
         budgetRemaining summary + budgetUsed summary)
      (teams (dispatchAll (createInitialState ts) actions))
  = map budget ts.
Proof.
  change (map (fun t => remainingBudget t + team_spent t)
              (teams (dispatchAll (createInitialState ts) actions))
          = map budget ts).
  assert (H : forall s,
    map (fun t => remainingBudget t + team_spent t)
        (teams (dispatchAll s actions))
    = map (fun t => remainingBudget t + team_spent t) (teams s)).
  { induction actions as [|a actions IH]; intros s; cbn; [reflexivity|].
    unfold dispatchAll in IH. rewrite IH. apply auctionReducer_funds. }
  rewrite H. cbn. rewrite map_map. cbn.
  induction ts as [|t ts IH]; cbn; [reflexivity|]. f_equal; [lia|exact IH].
Qed.

(** ** The completed phase *)

Lemma auctionReducer_not_completed (s : AuctionState) (a : AuctionAction) :
  phase s <> completed -> phase (auctionReducer s a) <> completed.
Proof.
  unfold auctionReducer.
  destruct a, s as [| b | | |]; cbn; try discriminate; try congruence;
    destruct (currentBid b); cbn; discriminate.
Qed.

(** X5. The reducer has no transition into the [completed] phase: a run
    that does not start there never gets there. *)
Theorem completed_phase_is_never_entered
    (s : AuctionState) (actions : list AuctionAction) :
  phase s <> completed ->
  phase (dispatchAll s actions) <> completed.
Proof.
  revert s. induction actions as [|a actions IH]; intros s Hs; cbn;
    [exact Hs|].
  apply IH, auctionReducer_not_completed, Hs.
Qed.

Lemma completed_phase_is_never_entered_witness :
  phase (createInitialState sample_teams) = idle
  /\ phase (dispatchAll (createInitialState sample_teams)
              [ START_BIDDING sample_player; TIME_EXPIRED; RESET_TO_IDLE ])
     <> completed.
Proof.
  split; [reflexivity|].
  refine (completed_phase_is_never_entered (createInitialState sample_teams)
            [ START_BIDDING sample_player; TIME_EXPIRED; RESET_TO_IDLE ] _).
  discriminate.
Defined.

(** ** Console output *)

(** X6. The reducer writes a console warning exactly when [START_BIDDING]
    arrives outside the idle phase or [PLACE_BID] outside the bidding phase;
    every other out-of-phase action is dropped silently.  Whenever a warning
    is written the state is returned unchanged. *)
Theorem warnings_only_for_start_and_bid (s : AuctionState) (a : AuctionAction) :
  ((auctionReducerLogged s a).2 <> [] <->
     (exists player, a = START_BIDDING player) /\ phase s <> idle
     \/ (exists team bidAmount, a = PLACE_BID team bidAmount)
        /\ phase s <> bidding)
  /\ ((auctionReducerLogged s a).2 <> [] -> auctionReducer s a = s).
Proof.
  unfold auctionReducer. split; [split|].
  - destruct a, s as [| b | | |]; cbn; intros H;
      try (exfalso; apply H; reflexivity);
      try (destruct (currentBid b); exfalso; apply H; reflexivity);
      [left | left | left | left | right | right | right | right];
      (split; [eauto | discriminate]).
  - intros [[(player & ->) Hph] | [(team & bidAmount & ->) Hph]];
      destruct s; cbn in *; congruence.
  - destruct a, s as [| b | | |]; cbn; intros H; try reflexivity;
      try (exfalso; apply H; reflexivity);
      destruct (currentBid b); exfalso; apply H; reflexivity.
Qed.

Lemma warnings_only_for_start_and_bid_witness :
  auctionReducer (IdleState [] [] None) (PLACE_BID "team-1" 50)
  = IdleState [] [] None.
Proof.
  refine (proj2 (warnings_only_for_start_and_bid (IdleState [] [] None)
                   (PLACE_BID "team-1" 50)) _).
  discriminate.
Defined.

(** ** Bids placed through the hook *)

Lemma validatePlayerAcquisition_never_empty ts p amt allPlayers :
  validatePlayerAcquisition ts p amt allPlayers <> Invalid [].
Proof.
  unfold validatePlayerAcquisition, validatePlayerAcquisitionWith. cbn zeta.
  match goal with
  | |- (if (length ?l =? 0)%nat then _ else _) <> _ => destruct l
  end; cbn; discriminate.
Qed.

Lemma validateBid_never_empty b team amt allPlayers :
  validateBid b team amt allPlayers <> Invalid [].
Proof.
  unfold validateBid.
  destruct (find _ (bidding_teams b)); [|discriminate].
  cbn zeta. destruct (amt <? getMinimumValidBid b); [discriminate|].
  apply validatePlayerAcquisition_never_empty.
Qed.

(** X7. [placeBid] of the hook during bidding, called first in its render
    (so that the state it validates is the state its action is reduced on):
    when [validateBid] accepts the bid, the bid becomes the current bid, the
    timer is extended to [min (t + 15) 60] and the message announces it;
    when it rejects, an [INVALID_BID] carrying the message of the first
    violation is dispatched and only the status message changes. *)
Theorem hook_placeBid_outcome
    (players : list Player) (b : BiddingAuctionState)
    (team : string) (amt : Z) :
  let next :=
    useAuction_render players (BiddingState b) [ call_placeBid team amt ] in
  match validateBid b team amt players with
  | Valid =>
      next
      = BiddingState
          {| currentPlayer := currentPlayer b;
             currentBid := Some (mkCurrentBid team amt);
             timeRemaining := Z.min (timeRemaining b + 15) 60;
             bidding_completedPlayerIds := bidding_completedPlayerIds b;
             bidding_teams := bidding_teams b;
             bidding_message :=
               Some (team +:+ " bids ₹" +:+ pretty amt +:+ "L") |}
  | Invalid errors =>
      exists e rest,
        errors = e :: rest
        /\ next
           = BiddingState
               (with_message b (Some ("Invalid bid: " +:+ error_message e)))
  end.
Proof.
  pose proof (validateBid_never_empty b team amt players) as Hne.
  unfold useAuction_render, hookAction, placeBid. cbn [map fold_left].
  destruct (validateBid b team amt players) as [|[|e rest]]; cbn.
  - reflexivity.
  - congruence.
  - exists e, rest. split; reflexivity.
Qed.

(** A later call of the same render is validated on the rendered state, not
    on the state its action reaches.  Two bids of 50 placed in one render
    are both accepted, although the second no longer raises the first. *)
Example placeBid_validates_the_rendered_state :
  let b := mkBidding sample_player None 60 []
             [ sample_team "team-1" 500; sample_team "team-3" 400 ] None in
  let next :=
    useAuction_render [] (BiddingState b)
      [ call_placeBid "team-1" 50; call_placeBid "team-3" 50 ] in
  basePrice sample_player = 50
  /\ validateBid b "team-3" 50 [] = Valid
  /\ (exists b', next = BiddingState b'
                 /\ currentBid b' = Some (mkCurrentBid "team-3" 50)
                 /\ getMinimumValidBid b' = 55).
Proof.
  vm_compute. split; [reflexivity|]. split; [reflexivity|].
  eexists. split; [reflexivity|]. split; reflexivity.
Qed.

(** ** The price on the table *)

Lemma auctionReducer_price_at_least_base (s : AuctionState) (a : AuctionAction) :
  price_at_least_base s -> dispatched s a ->
  price_at_least_base (auctionReducer s a).
Proof.
  intros Hinv Hdisp. unfold auctionReducer.
  destruct Hdisp as [b team amt allPlayers Hvalid | s player | s reason
                     | s | s | s | s | s].
  - apply validateBid_valid in Hvalid as (found & _ & Hmin & _).
    cbn. cbn in Hinv. unfold getMinimumValidBid in Hmin.
    destruct (currentBid b) as [bid|].
    + unfold AUCTION_CONSTANTS.BID_INCREMENT_MIN in Hmin. lia.
    + exact Hmin.
  - destruct s; exact Hinv || exact I.
  - destruct s; exact Hinv.
  - destruct s as [| b | | |]; cbn; try exact Hinv.
    cbn in Hinv. destruct (currentBid b) as [bid|]; cbn; [exact Hinv|exact I].
  - destruct s as [| b | | |]; cbn; try exact Hinv.
    cbn in Hinv. destruct (currentBid b) as [bid|] eqn:E; cbn.
    + exact Hinv.
    + rewrite E. exact I.
  - destruct s as [| b | | |]; cbn; exact Hinv || exact I.
  - exact I.
  - destruct s as [| b | | |]; exact Hinv.
Qed.

Lemma reachable_price_at_least_base (ts : list Team) (s : AuctionState) :
  reachable ts s -> price_at_least_base s.
Proof.
  induction 1 as [|s a Hreach IH Hdisp].
  - exact I.
  - apply auctionReducer_price_at_least_base; assumption.
Qed.

(** X8. With validated bids, the price on the table is never below the
    player's base price: in every reachable state a current bid, and the
    winning bid of a sale, is at least the base price. *)
Theorem accepted_price_at_least_base_price (ts : list Team) (s : AuctionState) :
  reachable ts s ->
  match s with
  | BiddingState b =>
      forall bid, currentBid b = Some bid ->
                  basePrice (currentPlayer b) <= amount bid
  | SoldState p bid _ _ _ => basePrice p <= amount bid
  | _ => True
  end.
Proof.
  intros Hreach. apply reachable_price_at_least_base in Hreach.
  destruct s as [| b | | |]; try exact Hreach; try exact I.
  intros bid Hbid. cbn in Hreach. rewrite Hbid in Hreach. exact Hreach.
Qed.

Lemma accepted_price_at_least_base_price_witness :
  phase sample_round = sold /\ basePrice sample_player <= 120.
Proof.
  split; [reflexivity|].
  refine (accepted_price_at_least_base_price sample_teams sample_round _).
  unfold sample_round.
  apply reachable_dispatch; [|apply dispatched_TIME_EXPIRED].
  apply reachable_dispatch.
  - apply reachable_dispatch;
      [apply reachable_initial | apply dispatched_START_BIDDING].
  - refine (dispatched_bid
              (mkBidding sample_player None 60 []
                 [ sample_team "team-1" 500; sample_team "team-3" 400 ]
                 (Some "Bidding started for R. Sharma"))
              "team-3" 120 [] _).
    vm_compute. reflexivity.
Defined.

(** X9. An accepted bid raises the bar: once placed, the minimum valid bid
    is the bid plus 5, at least 5 above the previous minimum, and the same
    amount is no longer acceptable. *)
Theorem accepted_bid_raises_the_minimum
    (b : BiddingAuctionState) (team : string) (amt : Z)
    (allPlayers : list Player) :
  isValid (validateBid b team amt allPlayers) = true ->
  exists b',
    auctionReducer (BiddingState b) (PLACE_BID team amt) = BiddingState b'
    /\ getMinimumValidBid b' = amt + 5
    /\ getMinimumValidBid b + 5 <= getMinimumValidBid b'
    /\ isValid (validateBid b' team amt allPlayers) = false.
Proof.
  intros Hvalid.
  pose proof Hvalid as Hv.
  apply validateBid_valid in Hv as (found & Hfind & Hmin & _).
  eexists. split; [reflexivity|].
  split; [reflexivity|]. split; [cbn; unfold AUCTION_CONSTANTS.BID_INCREMENT_MIN; lia|].
  unfold validateBid. cbn [bidding_teams]. rewrite Hfind. cbn zeta.
  replace (amt <? _) with true; [reflexivity|].
  symmetry. apply Z.ltb_lt. cbn. unfold AUCTION_CONSTANTS.BID_INCREMENT_MIN. lia.
Qed.

Lemma accepted_bid_raises_the_minimum_witness :
  let b := sample_bidding None [ sample_team "team-1" 100 ] in
  exists b',
    auctionReducer (BiddingState b) (PLACE_BID "team-1" 60) = BiddingState b'
    /\ getMinimumValidBid b' = 60 + 5
    /\ getMinimumValidBid b + 5 <= getMinimumValidBid b'
    /\ isValid (validateBid b' "team-1" 60 []) = false.
Proof.
  refine (accepted_bid_raises_the_minimum
            (sample_bidding None [ sample_team "team-1" 100 ])
            "team-1" 60 [] _).
  vm_compute. reflexivity.
Defined.

(** ** Runs driven through the hook *)







(** Why [placeBid] must come first.  A render that sees team-3 leading at
    390 ends that round, starts the next and bids 395 for team-3: the bid is
    validated against the budget of 400 that the render saw, and reduced
    after the sale has already taken 390 of it. *)
Example stale_placeBid_overdraws :
  let second := mkPlayer "p-2" "V. Kohli" batter domestic 50 no_stats in
  let s := useAuction_run sample_teams []
             [ [ call_startBidding sample_player ];
               [ call_placeBid "team-3" 390 ];
               [ call_handleTimeExpired; call_resetToIdle;
                 call_startBidding second; call_placeBid "team-3" 395 ];
               [ call_handleTimeExpired ] ] in
  map remainingBudget (teams s) = [ 500; -385 ].
Proof. vm_compute. reflexivity. Qed.

(** ** The countdown driver *)

Lemma timerSecond_running (b : BiddingAuctionState) :
  2 <= timeRemaining b ->
  timerSecond (BiddingState b)
  = BiddingState (with_timeRemaining b (timeRemaining b - 1)).
Proof.
  intros Ht. unfold timerSecond. rewrite tick_on_bidding.
  rewrite Z.max_r by lia. unfold expiryEffect. cbn.
  destruct (timeRemaining b - 1 =? 0) eqn:E; [lia|]. reflexivity.
Qed.

Lemma timerSecond_last (b : BiddingAuctionState) :
  timeRemaining b <= 1 ->
  timerSecond (BiddingState b)
  = auctionReducer (BiddingState (with_timeRemaining b 0)) TIME_EXPIRED.
Proof.
  intros Ht. unfold timerSecond. rewrite tick_on_bidding.
  rewrite Z.max_l by lia. reflexivity.
Qed.

(** X11. The countdown ends the round: from a bidding-phase state with
    [n + 1] time units left and no further bids, each of the first [n]
    periods of the timer only lowers [timeRemaining] by one, and the
    [(n + 1)]-th period brings it to 0 and fires the expiry, leaving the
    state sold when there is a current bid and unsold otherwise. *)
Theorem countdown_ends_the_round (b : BiddingAuctionState) (n : nat) :
  timeRemaining b = Z.of_nat (S n) ->
  (forall k, (k <= n)%nat ->
     Nat.iter k timerSecond (BiddingState b)
     = BiddingState (with_timeRemaining b (timeRemaining b - Z.of_nat k)))
  /\ Nat.iter (S n) timerSecond (BiddingState b)
     = auctionReducer (BiddingState (with_timeRemaining b 0)) TIME_EXPIRED
  /\ phase (Nat.iter (S n) timerSecond (BiddingState b))
     = match currentBid b with Some _ => sold | None => unsold end.
Proof.
  intros Ht.
  assert (Hrun : forall k, (k <= n)%nat ->
     Nat.iter k timerSecond (BiddingState b)
     = BiddingState (with_timeRemaining b (timeRemaining b - Z.of_nat k))).
  { induction k as [|k IH]; intros Hk.
    - cbn. rewrite Z.sub_0_r. destruct b; reflexivity.
    - cbn [Nat.iter nat_rect]. unfold Nat.iter in IH. rewrite IH by lia.
      rewrite timerSecond_running by (cbn; lia).
      unfold with_timeRemaining. cbn. do 2 f_equal. lia. }
  split; [exact Hrun|].
  assert (Hend : Nat.iter (S n) timerSecond (BiddingState b)
     = auctionReducer (BiddingState (with_timeRemaining b 0)) TIME_EXPIRED).
  { cbn [Nat.iter nat_rect]. unfold Nat.iter in Hrun. rewrite Hrun by lia.
    rewrite timerSecond_last by (cbn; lia). reflexivity. }
  split; [exact Hend|].
  rewrite Hend. unfold auctionReducer. cbn.
  destruct (currentBid b); reflexivity.
Qed.

Lemma countdown_ends_the_round_witness :
  phase (Nat.iter 30 timerSecond
           (BiddingState (sample_bidding None [ sample_team "team-1" 100 ])))
  = unsold.
Proof.
  refine (proj2 (proj2 (countdown_ends_the_round
            (sample_bidding None [ sample_team "team-1" 100 ]) 29 _))).
  reflexivity.
Defined.

(** ** The catalog map *)

Lemma playerMap_snoc (allPlayers : list Player) (p : Player) :
  playerMap (allPlayers ++ [ p ]) = <[ player_id p := p ]> (playerMap allPlayers).
Proof. unfold playerMap. rewrite foldl_snoc. reflexivity. Qed.

Lemma playerMap_lookup_None (allPlayers : list Player) (k : string) :
  playerMap allPlayers !! k = None <-> k ∉ map player_id allPlayers.
Proof.
  induction allPlayers as [|p l IH] using rev_ind.
  - cbn. split; [intros _; apply not_elem_of_nil | reflexivity].
  - rewrite playerMap_snoc, map_app. cbn.
    rewrite not_elem_of_app, list_elem_of_singleton, <- IH.
    destruct (decide (player_id p = k)) as [->|Hne].
    + rewrite lookup_insert_eq.
      split; [discriminate | intros [_ H]; congruence].
    + rewrite lookup_insert_ne by exact Hne.
      split; [split; congruence | tauto].
Qed.

(** X12. The catalog map built by [new Map(allPlayers.map(...))]: a lookup
    fails exactly for ids that no catalog entry carries; a lookup that
    succeeds returns a catalog entry with that id; and when several entries
    share an id, the last one in the list is the one found. *)
Theorem playerMap_lookup_correct (allPlayers : list Player) (k : string) :
  (playerMap allPlayers !! k = None <-> k ∉ map player_id allPlayers)
  /\ (forall p, playerMap allPlayers !! k = Some p ->
                player_id p = k /\ p ∈ allPlayers)
  /\ (forall earlier p later,
        allPlayers = earlier ++ p :: later ->
        player_id p = k ->
        k ∉ map player_id later ->
        playerMap allPlayers !! k = Some p).
Proof.
  assert (Hsome : forall l p, playerMap l !! k = Some p ->
                              player_id p = k /\ p ∈ l).
  { induction l as [|q l IH] using rev_ind; intros p Hp.
    - cbn in Hp. rewrite lookup_empty in Hp. discriminate.
    - rewrite playerMap_snoc in Hp.
      destruct (decide (player_id q = k)) as [<-|Hne].
      + rewrite lookup_insert_eq in Hp. injection Hp as <-.
        split; [reflexivity|]. apply elem_of_app. right.
        apply list_elem_of_singleton. reflexivity.
      + rewrite lookup_insert_ne in Hp by exact Hne.
        destruct (IH p Hp) as [? ?]. split; [assumption|].
        apply elem_of_app. left. assumption. }
  split; [apply playerMap_lookup_None|]. split; [apply Hsome|].
  intros earlier p later -> Hid Hlater. revert Hlater.
  induction later as [|q later IH] using rev_ind; intros Hlater.
  - rewrite playerMap_snoc, Hid. apply lookup_insert_eq.
  - rewrite app_comm_cons, app_assoc, playerMap_snoc.
    rewrite map_app, not_elem_of_app in Hlater. cbn in Hlater.
    destruct Hlater as [Hlater Hq].
    rewrite list_elem_of_singleton in Hq.
    rewrite lookup_insert_ne by congruence.
    apply IH, Hlater.
Qed.

Lemma playerMap_lookup_correct_witness :
  playerMap (eight_batters ++ [ overseas_batter ] ++ [ sample_player ])
    !! "p-9" = Some overseas_batter.
Proof.
  refine (proj2 (proj2 (playerMap_lookup_correct
            (eight_batters ++ [ overseas_batter ] ++ [ sample_player ])
            "p-9")) eight_batters overseas_batter [ sample_player ] _ _ _).
  - reflexivity.
  - reflexivity.
  - apply (bool_decide_unpack _). vm_compute. exact I.
Defined.

(** ** Role and overseas counts *)

(** One step of the reduction in [countPlayersByRole]. *)
Lemma role_count_insert (counts : gmap PlayerRole Z) (r r' : PlayerRole) (n : Z) :
  role_count (<[ r := n ]> counts) r'
  = if decide (r = r') then n else role_count counts r'.
Proof.
  unfold role_count. destruct (decide (r = r')) as [->|Hne].
  - rewrite lookup_insert_eq. reflexivity.
  - rewrite lookup_insert_ne by exact Hne. reflexivity.
Qed.

Lemma playerMap_resolves (allPlayers : list Player) (k : string) :
  bool_decide (k ∈ map player_id allPlayers)
  = match playerMap allPlayers !! k with Some _ => true | None => false end.
Proof.
  destruct (playerMap allPlayers !! k) eqn:E.
  - apply bool_decide_eq_true. 
    destruct (decide (k ∈ map player_id allPlayers)) as [H|H]; [exact H|].
    apply playerMap_lookup_None in H. congruence.
  - apply bool_decide_eq_false.
    apply playerMap_lookup_None. exact E.
Qed.

Lemma countPlayersByRole_fold
    (sq : list AcquiredPlayer) (allPlayers : list Player)
    (counts : gmap PlayerRole Z) :
  (forall r, 0 <= role_count counts r) ->
  (forall r, role_count counts r
             <= role_count (foldl (role_count_step allPlayers) counts sq) r)
  /\ role_count_total (foldl (role_count_step allPlayers) counts sq)
     = role_count_total counts
       + Z.of_nat (length (resolved_entries sq allPlayers)).
Proof.
  revert counts.
  induction sq as [|a sq IH]; intros counts Hpos; cbn [foldl].
  - split; [intros r; lia|]. cbn. lia.
  - unfold resolved_entries. cbn [List.filter].
    rewrite playerMap_resolves. fold (resolved_entries sq allPlayers).
    unfold role_count_step at 2 4.
    destruct (playerMap allPlayers !! playerId a) as [p|].
    + cbn zeta.
      assert (Hstep : forall r,
                role_count (<[ role p := default 0 (counts !! role p) + 1 ]>
                              counts) r
                = if decide (role p = r) then role_count counts r + 1
                  else role_count counts r).
      { intros r. rewrite role_count_insert.
        destruct (decide (role p = r)) as [<-|]; reflexivity. }
      destruct (IH (<[ role p := default 0 (counts !! role p) + 1 ]> counts))
        as [Hmono Htotal].
      { intros r. rewrite Hstep. specialize (Hpos r).
        destruct (decide (role p = r)); clear -Hpos; lia. }
      split.
      * intros r. specialize (Hmono r). rewrite Hstep in Hmono.
        destruct (decide (role p = r)); clear -Hmono; lia.
      * rewrite Htotal. unfold role_count_total. rewrite !Hstep.
        cbn [length]. clear.
        destruct (role p); repeat case_decide; try congruence; lia.
    + apply IH, Hpos.
Qed.

Lemma countPlayersByRole_nonneg sq allPlayers r :
  0 <= role_count (countPlayersByRole sq allPlayers) r.
Proof.
  destruct (countPlayersByRole_fold sq allPlayers ∅) as [Hmono _].
  { intros r'. unfold role_count. rewrite lookup_empty. cbn. lia. }
  specialize (Hmono r). unfold role_count in Hmono at 1.
  rewrite lookup_empty in Hmono. exact Hmono.
Qed.

Lemma countPlayersByRole_total sq allPlayers :
  role_count_total (countPlayersByRole sq allPlayers)
  = Z.of_nat (length (resolved_entries sq allPlayers)).
Proof.
  destruct (countPlayersByRole_fold sq allPlayers ∅) as [_ Htotal].
  { intros r'. unfold role_count. rewrite lookup_empty. cbn. lia. }
  change (foldl (role_count_step allPlayers) ∅ sq)
    with (countPlayersByRole sq allPlayers) in Htotal.
  rewrite Htotal. unfold role_count_total, role_count.
  rewrite !lookup_empty. cbn. lia.
Qed.

Lemma countOverseasPlayers_le_resolved sq allPlayers :
  0 <= countOverseasPlayers sq allPlayers
    <= Z.of_nat (length (resolved_entries sq allPlayers)).
Proof.
  unfold countOverseasPlayers, resolved_entries. cbn zeta.
  split; [lia|]. apply inj_le.
  induction sq as [|a sq IH]; cbn [List.filter]; [cbn; lia|].
  rewrite playerMap_resolves.
  destruct (playerMap allPlayers !! playerId a) as [p|].
  - destruct (bool_decide (nationality p = overseas)); cbn [length]; lia.
  - exact IH.
Qed.

Lemma resolved_entries_length sq allPlayers :
  (length (resolved_entries sq allPlayers) <= length sq)%nat.
Proof.
  unfold resolved_entries.
  induction sq as [|a sq IH]; cbn [List.filter]; [cbn; lia|].
  destruct (bool_decide _); cbn [length]; lia.
Qed.

(** X13. Role and overseas counts of a squad: every role count is at least
    0; the four role counts add up to the number of squad entries whose
    player id the catalog knows (entries with an unknown id are counted
    under no role); the overseas count lies between 0 and that number, which
    is at most the squad size. *)
Theorem role_counts_are_bounded
    (sq : list AcquiredPlayer) (allPlayers : list Player) :
  let counts := countPlayersByRole sq allPlayers in
  (forall r, 0 <= role_count counts r)
  /\ role_count counts batter + role_count counts bowler
     + role_count counts all_rounder + role_count counts wicket_keeper
     = Z.of_nat (length (resolved_entries sq allPlayers))
  /\ 0 <= countOverseasPlayers sq allPlayers
       <= Z.of_nat (length (resolved_entries sq allPlayers))
  /\ (length (resolved_entries sq allPlayers) <= length sq)%nat.
Proof.
  cbn zeta. split; [|split; [|split]].
  - intros r. apply countPlayersByRole_nonneg.
  - apply countPlayersByRole_total.
  - apply countOverseasPlayers_le_resolved.
  - apply resolved_entries_length.
Qed.

(** ** The closing check on a squad *)

Lemma errors_of_result (errors : list ValidationError) :
  errors_of (if (length errors =? 0)%nat then Valid else Invalid errors)
  = errors.
Proof. destruct errors; reflexivity. Qed.

(** X14. The closing check on a squad reports, in this order: a squad below
    the minimum size (under the code [SQUAD_FULL], which the source reuses,
    with the two sizes as context), and then, in the key order of the role
    constraints, one [ROLE_LIMIT_EXCEEDED] error for each role whose count
    is below its minimum, naming that role, its count and its minimum in
    the context.  The check passes exactly when the squad has the minimum
    size and every listed role its minimum count. *)
Theorem validateMinimumSquadRequirements_correct
    (ts : TeamState) (allPlayers : list Player) (keys : list PlayerRole)
    (c : SquadConstraints) :
  let counts := countPlayersByRole (squad ts) allPlayers in
  let short := fun r => role_count counts r <? role_min (roleConstraints c r) in
  let result := validateMinimumSquadRequirements ts allPlayers keys c in
  map (fun e => (code e, context e)) (errors_of result)
  = (if Z.of_nat (length (squad ts)) <? minSquadSize c
     then [ (SQUAD_FULL,
             [ ("currentSize", CNum (Z.of_nat (length (squad ts))));
               ("minSize", CNum (minSquadSize c)) ]) ]
     else [])
    ++ map (fun r =>
              (ROLE_LIMIT_EXCEEDED,
               [ ("role", CStr (role_string r));
                 ("currentCount", CNum (role_count counts r));
                 ("minCount", CNum (role_min (roleConstraints c r))) ]))
         (List.filter short keys)
  /\ (result = Valid <->
        minSquadSize c <= Z.of_nat (length (squad ts))
        /\ forall r, In r keys ->
                     role_min (roleConstraints c r) <= role_count counts r).
Proof.
  intros counts short result.
  subst result. unfold validateMinimumSquadRequirements. cbn zeta.
  fold counts.
  set (size_errors :=
         if Z.of_nat (length (squad ts)) <? minSquadSize c
         then _ else []).
  set (step := fun (errors : list ValidationError)
                   (entry : PlayerRole * RoleLimit) => _).
  (* the loop appends one error per short role, in key order *)
  assert (Hloop : forall errors,
            map (fun e => (code e, context e))
              (fold_left step (Object_entries keys c) errors)
            = map (fun e => (code e, context e)) errors
              ++ map (fun r =>
                        (ROLE_LIMIT_EXCEEDED,
                         [ ("role", CStr (role_string r));
                           ("currentCount", CNum (role_count counts r));
                           ("minCount",
                            CNum (role_min (roleConstraints c r))) ]))
                   (List.filter short keys)).
  { induction keys as [|r keys IH]; intros errors; cbn [Object_entries map
      fold_left List.filter].
    - rewrite app_nil_r. reflexivity.
    - fold (Object_entries keys c). rewrite IH.
      unfold step at 1. cbn [fst snd].
      fold (role_count counts r).
      change (short r)
        with (role_count counts r <? role_min (roleConstraints c r)).
      destruct (role_count counts r <? role_min (roleConstraints c r)).
      + rewrite map_app, <- app_assoc. reflexivity.
      + reflexivity. }
  rewrite errors_of_result, Hloop.
  split.
  { f_equal. unfold size_errors.
    destruct (Z.of_nat (length (squad ts)) <? minSquadSize c); reflexivity. }
  assert (Hnil : fold_left step (Object_entries keys c) size_errors = []
                 <-> size_errors = [] /\ List.filter short keys = []).
  { split.
    - intros H. specialize (Hloop size_errors). rewrite H in Hloop.
      symmetry in Hloop. apply app_eq_nil in Hloop as [H1 H2].
      apply map_eq_nil in H1, H2. split; assumption.
    - intros [H1 H2]. specialize (Hloop size_errors).
      rewrite H1, H2 in Hloop. rewrite H1.
      apply map_eq_nil in Hloop. exact Hloop. }
  assert (Hsize : size_errors = []
                  <-> minSquadSize c <= Z.of_nat (length (squad ts))).
  { unfold size_errors.
    destruct (Z.of_nat (length (squad ts)) <? minSquadSize c) eqn:E.
    - apply Z.ltb_lt in E. split; [discriminate | lia].
    - apply Z.ltb_ge in E. split; [intros _; exact E | reflexivity]. }
  assert (Hroles : List.filter short keys = []
                   <-> forall r, In r keys ->
                         role_min (roleConstraints c r)
                         <= role_count counts r).
  { clear. induction keys as [|r keys IH]; cbn [List.filter].
    - split; [intros _ r [] | reflexivity].
    - unfold short at 1.
      destruct (role_count counts r <? role_min (roleConstraints c r)) eqn:E.
      + apply Z.ltb_lt in E. split; [discriminate|].
        intros H. specialize (H r (or_introl eq_refl)). lia.
      + apply Z.ltb_ge in E. rewrite IH. split.
        * intros H r' [<- | Hin]; [exact E | apply H, Hin].
        * intros H r' Hin. apply H. right. exact Hin. }
  destruct (fold_left step (Object_entries keys c) size_errors) as [|e rest]
    eqn:Efold; cbn [length Nat.eqb].
  - split; [intros _ | reflexivity].
    destruct (proj1 Hnil eq_refl) as [H1 H2].
    split; [apply Hsize, H1 | apply Hroles, H2].
  - split; [discriminate|]. intros [H1 H2].
    apply Hsize in H1. apply Hroles in H2.
    pose proof (proj2 Hnil (conj H1 H2)). discriminate.
Qed.

(** With the key order of the default constraints, an empty squad misses
    the size and then the roles in the order batter, bowler, all-rounder,
    wicket-keeper. *)
Example empty_squad_fails_every_minimum :
  map error_message
    (errors_of (validateMinimumSquadRequirements (sample_team "team-1" 100)
                  [] DEFAULT_ROLE_KEYS DEFAULT_SQUAD_CONSTRAINTS))
  = [ "Squad too small. Minimum 15 players required, have 0.";
      "Need at least 3 batter(s), have 0.";
      "Need at least 3 bowler(s), have 0.";
      "Need at least 2 all-rounder(s), have 0.";
      "Need at least 1 wicket-keeper(s), have 0." ].
Proof. vm_compute. reflexivity. Qed.

(** ** Who may still bid *)

Lemma isValid_true_Valid (r : ValidationResult) : isValid r = true -> r = Valid.
Proof. destruct r; [reflexivity | discriminate]. Qed.

Lemma canTeamBid_isValid
    (ts : TeamState) (minBid : Z) (p : Player) (allPlayers : list Player) :
  canTeamBid ts minBid p allPlayers
  = isValid (validatePlayerAcquisition ts p minBid allPlayers).
Proof.
  unfold canTeamBid. cbn zeta.
  destruct (isValid (validateBudget ts minBid)) eqn:Eb; cbn; [reflexivity|].
  destruct (isValid (validatePlayerAcquisition ts p minBid allPlayers)) eqn:Ef;
    [|reflexivity].
  apply validatePlayerAcquisition_valid_budget in Ef.
  unfold validateBudget in Eb.
  destruct (minBid >? remainingBudget ts) eqn:E; [lia | discriminate Eb].
Qed.

Lemma validatePlayerAcquisition_valid_squad ts p amt allPlayers :
  isValid (validatePlayerAcquisition ts p amt allPlayers) = true ->
  Z.of_nat (length (squad ts)) < 25.
Proof.
  intros Hvalid.
  pose proof (validatePlayerAcquisitionWith_errors ts p amt allPlayers
                DEFAULT_SQUAD_CONSTRAINTS) as Herr.
  fold (validatePlayerAcquisition ts p amt allPlayers) in Herr.
  destruct (validatePlayerAcquisition ts p amt allPlayers);
    [|discriminate Hvalid].
  cbn in Herr. unfold all_violations in Herr. symmetry in Herr.
  apply app_eq_nil in Herr as [_ Herr]. apply app_eq_nil in Herr as [Herr _].
  unfold validateSquadSize in Herr. cbn in Herr.
  destruct (Z.of_nat (length (squad ts)) >=? 25) eqn:E; [discriminate|lia].
Qed.

(** X15. [canTeamBid] answers exactly what the full acquisition check
    answers: its quick budget test never changes the result.  A team that
    can bid can pay the amount and has fewer than 25 players. *)
Theorem canTeamBid_is_full_validation
    (ts : TeamState) (minBid : Z) (p : Player) (allPlayers : list Player) :
  canTeamBid ts minBid p allPlayers
  = isValid (validatePlayerAcquisition ts p minBid allPlayers)
  /\ (canTeamBid ts minBid p allPlayers = true ->
      minBid <= remainingBudget ts /\ Z.of_nat (length (squad ts)) < 25).
Proof.
  split; [apply canTeamBid_isValid|].
  rewrite canTeamBid_isValid. intros Hvalid. split.
  - eapply validatePlayerAcquisition_valid_budget, Hvalid.
  - eapply validatePlayerAcquisition_valid_squad, Hvalid.
Qed.

Lemma canTeamBid_is_full_validation_witness :
  10 <= remainingBudget (sample_team "team-1" 100)
  /\ Z.of_nat (length (squad (sample_team "team-1" 100))) < 25.
Proof.
  refine (proj2 (canTeamBid_is_full_validation (sample_team "team-1" 100) 10
                   sample_player []) _).
  vm_compute. reflexivity.
Defined.

(** X16. [getEligibleBidders] lists every team whose bid at the minimum
    valid amount [validateBid] accepts; with distinct team ids it lists only
    those. *)
Theorem eligible_bidders_are_accepted_at_minimum
    (b : BiddingAuctionState) (allPlayers : list Player) (team : string) :
  (validateBid b team (getMinimumValidBid b) allPlayers = Valid ->
   team ∈ getEligibleBidders b allPlayers)
  /\ (NoDup (map teamId (bidding_teams b)) ->
      team ∈ getEligibleBidders b allPlayers ->
      validateBid b team (getMinimumValidBid b) allPlayers = Valid).
Proof.
  unfold getEligibleBidders. cbn zeta. split.
  - intros Hvalid. unfold validateBid in Hvalid.
    destruct (find _ (bidding_teams b)) as [found|] eqn:Hfind;
      [|discriminate Hvalid].
    cbn zeta in Hvalid. rewrite Z.ltb_irrefl in Hvalid.
    apply find_some in Hfind as [Hin Hid].
    apply bool_decide_eq_true in Hid. subst team.
    apply list_elem_of_In, in_map, filter_In. split; [exact Hin|].
    rewrite canTeamBid_isValid, Hvalid. reflexivity.
  - intros Hnd Hin.
    apply list_elem_of_In, in_map_iff in Hin as (t & Hid & Hin).
    apply filter_In in Hin as [Hin Hcan].
    rewrite canTeamBid_isValid in Hcan.
    apply isValid_true_Valid in Hcan.
    unfold validateBid.
    destruct (find _ (bidding_teams b)) as [found|] eqn:Hfind.
    + pose proof (find_team_unique _ _ _ Hnd Hfind) as Huniq.
      rewrite Forall_forall in Huniq.
      apply list_elem_of_In in Hin.
      rewrite <- (Huniq t Hin Hid).
      cbn zeta. rewrite Z.ltb_irrefl. exact Hcan.
    + exfalso. eapply find_none in Hfind; [|exact Hin].
      apply bool_decide_eq_false in Hfind. contradiction.
Qed.

Lemma eligible_bidders_are_accepted_at_minimum_witness :
  "team-1" ∈ getEligibleBidders
               (sample_bidding None [ sample_team "team-1" 100 ]) [].
Proof.
  refine (proj1 (eligible_bidders_are_accepted_at_minimum
            (sample_bidding None [ sample_team "team-1" 100 ]) [] "team-1") _).
  vm_compute. reflexivity.
Defined.



(** ** Quick bids and the bid controls *)

Lemma getSuggestedBidIncrements_at_least_5 (currentAmount inc : Z) :
  In inc (getSuggestedBidIncrements currentAmount) -> 5 <= inc.
Proof.
  unfold getSuggestedBidIncrements.
  destruct (currentAmount <? 100); [|destruct (currentAmount <? 500);
    [|destruct (currentAmount <? 1000)]];
    cbn; intros H; repeat (destruct H as [<-|H]; [lia|]); contradiction.
Qed.

Lemma validatePlayerAcquisition_codes ts p amt allPlayers e :
  In e (errors_of (validatePlayerAcquisition ts p amt allPlayers)) ->
  code e = INSUFFICIENT_BUDGET \/ code e = SQUAD_FULL
  \/ code e = ROLE_LIMIT_EXCEEDED \/ code e = OVERSEAS_LIMIT_EXCEEDED.
Proof.
  intros Hin. apply (in_map code) in Hin.
  unfold validatePlayerAcquisition in Hin.
  rewrite validatePlayerAcquisitionWith_errors, all_violations_codes in Hin.
  unfold code_if in Hin.
  repeat (apply in_app_or in Hin as [Hin|Hin]);
    match type of Hin with
    | In _ (if ?c then _ else _) => destruct c
    end; cbn in Hin; intuition.
Qed.

Lemma page_minimumBid_is_minimum (b : BiddingAuctionState) :
  page_minimumBid b = getMinimumValidBid b.
Proof. reflexivity. Qed.

(** X18. Every quick-bid button is a legal raise: each suggested increment
    is at least 5 (the minimum increment), so the amount the button bids --
    the current bid, or the minimum when there is none, plus the increment --
    meets the minimum valid bid; neither the bid controls nor [validateBid]
    reject it as too low. *)
Theorem quick_bids_are_never_too_low (b : BiddingAuctionState) (inc : Z) :
  In inc (suggestedIncrements (page_currentBidAmount b) (page_minimumBid b)) ->
  let newAmount :=
    default (page_minimumBid b) (page_currentBidAmount b) + inc in
  5 <= inc
  /\ getMinimumValidBid b <= newAmount
  /\ (forall team allPlayers e,
        In e (errors_of (validateBid b team newAmount allPlayers)) ->
        code e <> BID_TOO_LOW)
  /\ (forall selected afford,
        handleQuickBid (page_currentBidAmount b) selected (page_minimumBid b)
          afford inc
        <> BidRejected ("Bid must be at least ₹"
                        +:+ pretty (page_minimumBid b) +:+ "L")).
Proof.
  intros Hin newAmount.
  apply getSuggestedBidIncrements_at_least_5 in Hin.
  assert (Hmin : getMinimumValidBid b <= newAmount).
  { subst newAmount. unfold page_currentBidAmount, page_minimumBid, getMinBid,
      getMinimumValidBid. destruct (currentBid b); cbn;
      unfold AUCTION_CONSTANTS.BID_INCREMENT_MIN; lia. }
  split; [exact Hin|]. split; [exact Hmin|]. split.
  - intros team allPlayers e He. unfold validateBid in He.
    destruct (find _ (bidding_teams b)) as [found|].
    + cbn zeta in He.
      destruct (newAmount <? getMinimumValidBid b) eqn:E; [lia|].
      apply validatePlayerAcquisition_codes in He.
      intros Hcode. rewrite Hcode in He.
      destruct He as [He|[He|[He|He]]]; discriminate He.
    + cbn in He. destruct He as [<-|[]]. discriminate.
  - intros selected afford. unfold handleQuickBid. cbn zeta.
    fold newAmount. unfold handleBid.
    destruct selected as [team|]; [|discriminate].
    destruct (bool_decide (team = "")); [discriminate|].
    rewrite page_minimumBid_is_minimum.
    destruct (newAmount <? getMinimumValidBid b) eqn:E; [lia|].
    destruct (afford team newAmount); discriminate.
Qed.

Lemma quick_bids_are_never_too_low_witness :
  let b := sample_bidding (Some (mkCurrentBid "team-1" 480)) [] in
  5 <= 50 /\ getMinimumValidBid b <= 480 + 50.
Proof.
  pose proof (quick_bids_are_never_too_low
                (sample_bidding (Some (mkCurrentBid "team-1" 480)) []) 50) as H.
  cbn zeta in H.
  destruct H as (H1 & H2 & _).
  - vm_compute. right. right. left. reflexivity.
  - split; [exact H1 | exact H2].
Defined.

(** X19. The pre-checks of the bid controls never block a bid that
    [validateBid] accepts (for a selected, non-empty team id); and a bid they
    let through can only be rejected by [validateBid] for squad size, role
    limit or overseas limit -- never for budget, amount or unknown team. *)
Theorem bid_controls_forward_every_valid_bid
    (b : BiddingAuctionState) (team : string) (amt : Z)
    (allPlayers : list Player) :
  let outcome :=
    handleBid (Some team) (page_minimumBid b)
      (canTeamAfford (BiddingState b)) amt in
  (team <> EmptyString ->
   validateBid b team amt allPlayers = Valid ->
   outcome = BidForwarded team amt (pretty (amt + 5)))
  /\ (forall team' amt' custom,
        outcome = BidForwarded team' amt' custom ->
        exists found,
          getTeamState (bidding_teams b) team = Some found
          /\ validateBid b team amt allPlayers
             = validatePlayerAcquisition found (currentPlayer b) amt allPlayers
          /\ map code (errors_of (validateBid b team amt allPlayers))
             = code_if (squad_size_fails found DEFAULT_SQUAD_CONSTRAINTS)
                 SQUAD_FULL
               ++ code_if (role_limit_fails found (currentPlayer b) allPlayers
                             DEFAULT_SQUAD_CONSTRAINTS) ROLE_LIMIT_EXCEEDED
               ++ code_if (overseas_limit_fails found (currentPlayer b)
                             allPlayers DEFAULT_SQUAD_CONSTRAINTS)
                    OVERSEAS_LIMIT_EXCEEDED).
Proof.
  cbn zeta. rewrite page_minimumBid_is_minimum.
  unfold handleBid, canTeamAfford, getTeamState. cbn [teams]. split.
  - intros Hteam Hvalid.
    assert (Hv : isValid (validateBid b team amt allPlayers) = true)
      by (rewrite Hvalid; reflexivity).
    apply validateBid_valid in Hv as (found & Hfind & Hmin & Hle).
    rewrite Hfind.
    destruct (bool_decide (team = "")) eqn:E;
      [apply bool_decide_eq_true in E; contradiction|].
    destruct (amt <? getMinimumValidBid b) eqn:E1; [lia|].
    destruct (remainingBudget found >=? amt) eqn:E2; [reflexivity|lia].
  - intros team' amt' custom.
    destruct (bool_decide (team = "")); [discriminate|].
    destruct (amt <? getMinimumValidBid b) eqn:E1; [discriminate|].
    destruct (find _ (bidding_teams b)) as [found|] eqn:Hfind;
      [|discriminate].
    destruct (remainingBudget found >=? amt) eqn:E2; [|discriminate].
    intros _. exists found. split; [reflexivity|].
    assert (Hvb : validateBid b team amt allPlayers
                  = validatePlayerAcquisition found (currentPlayer b) amt
                      allPlayers).
    { unfold validateBid. rewrite Hfind. cbn zeta. rewrite E1. reflexivity. }
    split; [exact Hvb|]. rewrite Hvb.
    unfold validatePlayerAcquisition.
    rewrite validatePlayerAcquisitionWith_errors, all_violations_codes.
    unfold budget_fails. replace (amt >? remainingBudget found) with false;
      [reflexivity|]. symmetry. rewrite Z.gtb_ltb. apply Z.ltb_ge. lia.
Qed.

Lemma bid_controls_forward_every_valid_bid_witness :
  handleBid (Some "team-1") 50
    (canTeamAfford
       (BiddingState (sample_bidding None [ sample_team "team-1" 100 ]))) 60
  = BidForwarded "team-1" 60 "65".
Proof.
  refine (proj1 (bid_controls_forward_every_valid_bid
            (sample_bidding None [ sample_team "team-1" 100 ])
            "team-1" 60 []) _ _).
  - discriminate.
  - vm_compute. reflexivity.
Defined.

(** ** Pre-screening a player *)

Lemma shouldConsiderPlayer_shouldBid
    (p : Player) (ts : TeamState) (allPlayers : list Player) :
  shouldBid (shouldConsiderPlayer p ts allPlayers)
  = negb (overseas_limit_fails ts p allPlayers DEFAULT_SQUAD_CONSTRAINTS)
    && negb (role_limit_fails ts p allPlayers DEFAULT_SQUAD_CONSTRAINTS)
    && negb (budget_fails ts (basePrice p)).
Proof.
  unfold shouldConsiderPlayer, overseas_limit_fails, role_limit_fails,
    budget_fails. cbn zeta.
  rewrite (Z.gtb_ltb (basePrice p)).
  destruct (bool_decide (nationality p = overseas));
    [destruct (countOverseasPlayers (squad ts) allPlayers
               >=? maxOverseasPlayers DEFAULT_SQUAD_CONSTRAINTS);
      [reflexivity|]|];
    cbn [andb negb];
    (destruct (_ >=? _); [reflexivity|]);
    (destruct (remainingBudget ts <? basePrice p); reflexivity).
Qed.

(** X20. [shouldConsiderPlayer] says yes exactly when the overseas-limit
    and role-limit checks of the validator pass and the team can pay the
    base price.  It does not look at the squad size: buying the player at
    the base price is valid exactly when it says yes and the squad is not
    full. *)
Theorem shouldConsiderPlayer_matches_validation
    (p : Player) (ts : TeamState) (allPlayers : list Player) :
  let c := DEFAULT_SQUAD_CONSTRAINTS in
  shouldBid (shouldConsiderPlayer p ts allPlayers)
  = negb (overseas_limit_fails ts p allPlayers c)
    && negb (role_limit_fails ts p allPlayers c)
    && negb (budget_fails ts (basePrice p))
  /\ (validatePlayerAcquisition ts p (basePrice p) allPlayers = Valid <->
      shouldBid (shouldConsiderPlayer p ts allPlayers) = true
      /\ squad_size_fails ts c = false).
Proof.
  intros c.
  pose proof (shouldConsiderPlayer_shouldBid p ts allPlayers) as Hshould.
  fold c in Hshould.
  split; [exact Hshould|]. rewrite Hshould.
  pose proof (validatePlayerAcquisitionWith_errors ts p (basePrice p)
                allPlayers c) as Herr.
  pose proof (all_violations_codes ts p (basePrice p) allPlayers c) as Hcodes.
  rewrite <- Herr in Hcodes.
  pose proof (validatePlayerAcquisition_never_empty ts p (basePrice p)
                allPlayers) as Hne.
  change (validatePlayerAcquisition ts p (basePrice p) allPlayers)
    with (validatePlayerAcquisitionWith ts p (basePrice p) allPlayers c)
    in Hne |- *.
  destruct (validatePlayerAcquisitionWith ts p (basePrice p) allPlayers c)
    as [|[|e es]]; [| congruence |]; cbn [errors_of map] in Hcodes;
    destruct (overseas_limit_fails ts p allPlayers c),
             (role_limit_fails ts p allPlayers c),
             (budget_fails ts (basePrice p)),
             (squad_size_fails ts c);
    cbn in Hcodes |- *; try discriminate Hcodes;
    split; try (intros [? ?]); try intros ?; try discriminate; auto.
Qed.

(** X21. [useAIRecommendation] returns either a recommendation (with
    [shouldBid] true and no skip reason) or a skip reason (with [shouldBid]
    false), never both or neither.  A recommendation is returned only when
    the feature is enabled and a player and a team are selected, it is the
    one [calculateBidRecommendation] computes, and then the team can pay the
    base price and has reached neither the role limit nor the overseas
    limit. *)
Theorem useAIRecommendation_contract
    (player : option Player) (teamState : option TeamState)
    (allPlayers : list Player) (currentBidAmount : option Z)
    (isEnabled : bool) :
  let r :=
    useAIRecommendation player teamState allPlayers currentBidAmount
      isEnabled in
  match recommendation r with
  | Some rec =>
      ai_shouldBid r = true /\ skipReason r = None /\ isEnabled = true
      /\ exists p ts,
           player = Some p /\ teamState = Some ts
           /\ rec = calculateBidRecommendation p ts allPlayers currentBidAmount
           /\ basePrice p <= remainingBudget ts
           /\ role_limit_fails ts p allPlayers DEFAULT_SQUAD_CONSTRAINTS
              = false
           /\ overseas_limit_fails ts p allPlayers DEFAULT_SQUAD_CONSTRAINTS
              = false
  | None =>
      ai_shouldBid r = false /\ exists why, skipReason r = Some why
  end.
Proof.
  unfold useAIRecommendation.
  destruct isEnabled; cbn [negb]; [|cbn; eauto].
  destruct player as [p|]; [|cbn; eauto].
  destruct teamState as [ts|]; [|cbn; eauto].
  cbn zeta.
  pose proof (shouldConsiderPlayer_shouldBid p ts allPlayers) as Hshould.
  destruct (shouldBid (shouldConsiderPlayer p ts allPlayers)); cbn;
    [|eauto].
  symmetry in Hshould.
  apply andb_true_iff in Hshould as [Hshould Hbudget].
  apply andb_true_iff in Hshould as [Hoverseas Hrole].
  apply negb_true_iff in Hbudget, Hoverseas, Hrole.
  repeat split. exists p, ts. repeat split; try assumption.
  unfold budget_fails in Hbudget. lia.
Qed.

(** X22. The quality multiplier lies between 1 and 2.7 for every player:
    statistics only ever add to it. *)
Theorem calculateQualityMultiplier_bounds (p : Player) :
  (1 <= calculateQualityMultiplier p <= 2.7)%Q.
Proof.
  (* 3 x 4 x 4 x 4 x 4 sums of doubles, each computed *)
  quality_cases p.
  all: vm_compute.
  all: split; discriminate.
Qed.


(** ** Bounds on the recommendation *)

(** The multiplier never exceeds the double [2.7]. *)
Lemma calculateQualityMultiplier_range (p : Player) :
  (0 <= calculateQualityMultiplier p <= fl 2.7)%Q.
Proof.
  quality_cases p.
  all: vm_compute.
  all: split; discriminate.
Qed.

Lemma calculateRoleScarcity_bounds r ts allPlayers :
  (0.5 <= calculateRoleScarcity r ts allPlayers <= fl 1.6)%Q.
Proof.
  unfold calculateRoleScarcity. cbn zeta.
  fold (role_count (countPlayersByRole (squad ts) allPlayers) r).
  pose proof (countPlayersByRole_nonneg (squad ts) allPlayers r) as Hpos.
  set (current := role_count (countPlayersByRole (squad ts) allPlayers) r)
    in *.
  set (limits := roleConstraints DEFAULT_SQUAD_CONSTRAINTS r).
  assert (Hmin : role_min limits <= 3) by (destruct r; cbn; lia).
  destruct (current <? role_min limits) eqn:E.
  - apply Z.ltb_lt in E.
    (* one, two or three players short *)
    assert (Hshort : role_min limits - current = 1
                     \/ role_min limits - current = 2
                     \/ role_min limits - current = 3) by lia.
    destruct Hshort as [-> | [-> | ->]]; vm_compute; split; discriminate.
  - destruct (current >=? role_max limits); vm_compute; split; discriminate.
Qed.

Lemma calculateOverseasMultiplier_bounds ts allPlayers :
  (0 <= calculateOverseasMultiplier ts allPlayers <= 1)%Q.
Proof.
  unfold calculateOverseasMultiplier. cbn zeta.
  destruct (_ <=? 0); [split; lra|].
  destruct (_ <=? 2); vm_compute; split; discriminate.
Qed.

Lemma calculateBudgetCap_le_floor_or_budget ts :
  calculateBudgetCap ts <= Z.max 20 (remainingBudget ts).
Proof.
  unfold calculateBudgetCap. cbn zeta.
  destruct (_ <=? 0); lia.
Qed.

Lemma calculateBudgetCap_nonneg ts :
  0 <= remainingBudget ts -> 0 <= calculateBudgetCap ts.
Proof.
  intros H. unfold calculateBudgetCap. cbn zeta.
  destruct (_ <=? 0); lia.
Qed.

Lemma Math_min_le_l (x cap : Q) : (Math_min x cap <= x)%Q.
Proof.
  unfold Math_min. destruct (Qle_bool x cap) eqn:E.
  - apply Qle_refl.
  - apply not_true_iff_false in E. rewrite Qle_bool_iff in E. lra.
Qed.

Lemma Math_min_nonneg (x cap : Q) :
  (0 <= x)%Q -> (0 <= cap)%Q -> (0 <= Math_min x cap)%Q.
Proof. intros ? ?. unfold Math_min. destruct (Qle_bool x cap); assumption. Qed.

Lemma Math_round_nonneg (x : Q) : (0 <= x)%Q -> 0 <= Math_round x.
Proof.
  intros Hx. unfold Math_round.
  change 0 with (Qfloor 0). apply Qfloor_resp_le. lra.
Qed.

Lemma Math_round_integer (z : Z) : Math_round (inject_Z z) = z.
Proof.
  unfold Math_round.
  pose proof (Qfloor_le (inject_Z z + 0.5)) as Hle.
  pose proof (Qlt_floor (inject_Z z + 0.5)) as Hlt.
  generalize dependent (Qfloor (inject_Z z + 0.5)). intros f Hle Hlt.
  unfold Qle in Hle. unfold Qlt in Hlt. cbn in Hle, Hlt. lia.
Qed.

(** The estimate before the cap: what the code computes for the base price
    times the largest multipliers, the doubles [2.7] and [1.6]. *)
Lemma estimateAfterBudgetCap_bounds p ts allPlayers :
  0 <= basePrice p ->
  0 <= remainingBudget ts ->
  (0 <= (estimateAfterBudgetCap p ts allPlayers).1
     <= fmul (fmul (inject_Z (basePrice p)) (fl 2.7)) (fl 1.6))%Q.
Proof.
  intros Hbase Hbudget.
  pose proof (calculateQualityMultiplier_range p) as [Hq1 Hq2].
  pose proof (calculateRoleScarcity_bounds (role p) ts allPlayers) as [Hs1 Hs2].
  pose proof (calculateOverseasMultiplier_bounds ts allPlayers) as [Ho1 Ho2].
  assert (Hb : (0 <= inject_Z (basePrice p))%Q)
    by (rewrite <- (Zle_Qle 0); exact Hbase).
  assert (Hcap : (0 <= inject_Z (calculateBudgetCap ts))%Q)
    by (rewrite <- (Zle_Qle 0); apply calculateBudgetCap_nonneg, Hbudget).
  unfold estimateAfterBudgetCap.
  set (q := calculateQualityMultiplier p) in *.
  set (s := calculateRoleScarcity (role p) ts allPlayers) in *.
  set (o := calculateOverseasMultiplier ts allPlayers) in *.
  set (base := inject_Z (basePrice p)) in *.
  assert (Hs0 : (0 <= s)%Q) by lra.
  assert (Hbq0 : (0 <= fmul base q)%Q) by (apply fmul_nonneg; assumption).
  assert (Hbq : (fmul base q <= fmul base (fl 2.7))%Q)
    by (apply fmul_monotone_r; assumption).
  assert (Hbqs0 : (0 <= fmul (fmul base q) s)%Q)
    by (apply fmul_nonneg; assumption).
  assert (Hbqs : (fmul (fmul base q) s
                  <= fmul (fmul base (fl 2.7)) (fl 1.6))%Q).
  { apply Qle_trans with (fmul (fmul base (fl 2.7)) s).
    - apply fmul_monotone_l; assumption.
    - apply fmul_monotone_r; [|assumption].
      apply Qle_trans with (fmul base q); assumption. }
  destruct (bool_decide (nationality p = overseas)); cbn [fst].
  - assert (Hbqso0 : (0 <= fmul (fmul (fmul base q) s) o)%Q)
      by (apply fmul_nonneg; assumption).
    assert (Hbqso : (fmul (fmul (fmul base q) s) o <= fmul (fmul base q) s)%Q).
    { rewrite <- (fmul_one_r (fmul base q * s)) at 2.
      apply fmul_monotone_r; assumption. }
    split; [apply Math_min_nonneg; assumption|].
    eapply Qle_trans; [apply Math_min_le_l|].
    eapply Qle_trans; [apply Hbqso | apply Hbqs].
  - split; [apply Math_min_nonneg; assumption|].
    eapply Qle_trans; [apply Math_min_le_l | apply Hbqs].
Qed.

(** X23. Without a current bid, for a non-negative base price and budget,
    the recommended ceiling is at least 0, at most the rounded value the
    code computes for the base price times 2.7 times 1.6 (the largest
    quality and scarcity multipliers), and at most the remaining budget or
    20, whichever is larger. *)
Theorem recommendation_without_current_bid_is_bounded
    (p : Player) (ts : TeamState) (allPlayers : list Player) :
  0 <= basePrice p ->
  0 <= remainingBudget ts ->
  let r := recommendedMaxBid
             (calculateBidRecommendation p ts allPlayers None) in
  0 <= r
  /\ r <= Math_round (fmul (fmul (inject_Z (basePrice p)) (fl 2.7)) (fl 1.6))
  /\ r <= Z.max 20 (remainingBudget ts).
Proof.
  intros Hbase Hbudget. cbn zeta.
  pose proof (estimateAfterBudgetCap_bounds p ts allPlayers Hbase Hbudget)
    as [Hlo Hhi].
  pose proof (estimateAfterBudgetCap_le_cap p ts allPlayers) as Hcap.
  unfold calculateBidRecommendation.
  destruct (estimateAfterBudgetCap p ts allPlayers) as [x rs].
  cbn [fst recommendedMaxBid] in *.
  split; [apply Math_round_nonneg, Hlo|].
  split; [apply Math_round_monotone, Hhi|].
  etrans; [apply Math_round_le_integer, Hcap|].
  apply calculateBudgetCap_le_floor_or_budget.
Qed.

Lemma recommendation_without_current_bid_is_bounded_witness :
  let r := recommendedMaxBid
             (calculateBidRecommendation sample_player
                (sample_team "team-1" 100) [] None) in
  0 <= r
  /\ r <= Math_round
            (fmul (fmul (inject_Z (basePrice sample_player)) (fl 2.7))
               (fl 1.6))
  /\ r <= Z.max 20 100.
Proof.
  refine (recommendation_without_current_bid_is_bounded sample_player
            (sample_team "team-1" 100) [] _ _).
  - vm_compute. discriminate.
  - vm_compute. discriminate.
Defined.

(** X24. With a current bid, the recommended ceiling is never below it: it
    is the current bid plus 5 when the estimate after the budget cap does not
    exceed the current bid, and the rounded estimate otherwise. *)
Theorem recommendation_respects_current_bid
    (p : Player) (ts : TeamState) (allPlayers : list Player) (cb : Z) :
  let estimate := (estimateAfterBudgetCap p ts allPlayers).1 in
  let r := calculateBidRecommendation p ts allPlayers (Some cb) in
  cb <= recommendedMaxBid r
  /\ ((estimate <= inject_Z cb)%Q -> recommendedMaxBid r = cb + 5)
  /\ ((inject_Z cb < estimate)%Q ->
      recommendedMaxBid r = Math_round estimate).
Proof.
  cbn zeta. unfold calculateBidRecommendation.
  destruct (estimateAfterBudgetCap p ts allPlayers) as [x rs]. cbn [fst].
  assert (Hplus : Math_round (inject_Z cb + 5) = cb + 5).
  { unfold Math_round.
    rewrite (Qfloor_comp _ (inject_Z (cb + 5) + 0.5)).
    - apply Math_round_integer.
    - rewrite inject_Z_plus. reflexivity. }
  destruct (Qle_bool x (inject_Z cb)) eqn:E; cbn [recommendedMaxBid].
  - apply Qle_bool_iff in E. rewrite Hplus.
    split; [lia|]. split; [reflexivity|]. intros H. lra.
  - apply not_true_iff_false in E. rewrite Qle_bool_iff in E.
    split; [|split; [intros H; contradiction | reflexivity]].
    rewrite <- (Math_round_integer cb) at 1.
    apply Math_round_monotone. lra.
Qed.

Lemma recommendation_respects_current_bid_witness :
  recommendedMaxBid
    (calculateBidRecommendation sample_player (sample_team "team-1" 1000) []
       (Some 500)) = 500 + 5.
Proof.
  refine (proj1 (proj2 (recommendation_respects_current_bid sample_player
            (sample_team "team-1" 1000) [] 500)) _).
  vm_compute. discriminate.
Defined.

(** Rounding decides the result: 50 x 1.15 x 1.4 is 80.5 exactly, which
    would round to 81; the code computes 80.49999999999999 and recommends
    80. *)
Example recommendation_is_computed_in_doubles :
  let p := mkPlayer "p-1" "H. Pandya" all_rounder domestic 50
             (mkPlayerStats 0 None None (Some 140%Q) None) in
  let ts := sample_team "team-1" 10000 in
  Q_of_float (50 * (1 + 0.15) * (1 + 2 * 0.2))
    = Some (estimateAfterBudgetCap p ts []).1
  /\ ((estimateAfterBudgetCap p ts []).1 < 80.5)%Q
  /\ recommendedMaxBid (calculateBidRecommendation p ts [] None) = 80.
Proof. vm_compute. repeat split. Qed.

(** A recommendation above the current bid can still be below the minimum
    valid bid, and the bid controls then refuse it. *)
Example recommendation_can_miss_the_minimum :
  let p := with_battingAverage
             (mkPlayer "p-1" "R. Sharma" batter domestic 100 no_stats) 35 in
  let b := mkBidding p (Some (mkCurrentBid "team-2" 190)) 30 []
             [ sample_team "team-1" 10000; sample_team "team-2" 10000 ]
             None in
  let r := calculateBidRecommendation p (sample_team "team-1" 10000) []
             (page_currentBidAmount b) in
  recommendedMaxBid r = 192
  /\ getMinimumValidBid b = 195
  /\ handleBid (Some "team-1") (page_minimumBid b)
       (canTeamAfford (BiddingState b)) (recommendedMaxBid r)
     = BidRejected "Bid must be at least ₹195L".
Proof. vm_compute. repeat split. Qed.

(** X25. An overseas player is vetoed once the overseas quota is used up:
    [shouldConsiderPlayer] answers no with the reason "No overseas slots
    available", the recommendation hook returns no recommendation, and the
    calculator itself (no current bid, budget not negative) recommends 0. *)
Theorem full_overseas_quota_vetoes_the_player
    (p : Player) (ts : TeamState) (allPlayers : list Player) :
  nationality p = overseas ->
  maxOverseasPlayers DEFAULT_SQUAD_CONSTRAINTS
    <= countOverseasPlayers (squad ts) allPlayers ->
  shouldConsiderPlayer p ts allPlayers
    = {| shouldBid := false; reason_text := "No overseas slots available" |}
  /\ (forall cb enabled,
        recommendation
          (useAIRecommendation (Some p) (Some ts) allPlayers cb enabled)
        = None)
  /\ (0 <= remainingBudget ts ->
      recommendedMaxBid (calculateBidRecommendation p ts allPlayers None) = 0).
Proof.
  intros Hnat Hfull.
  assert (Hconsider : shouldConsiderPlayer p ts allPlayers
    = {| shouldBid := false; reason_text := "No overseas slots available" |}).
  { unfold shouldConsiderPlayer. cbn zeta. rewrite Hnat.
    rewrite bool_decide_eq_true_2 by reflexivity.
    destruct (countOverseasPlayers (squad ts) allPlayers
              >=? maxOverseasPlayers DEFAULT_SQUAD_CONSTRAINTS) eqn:E;
      [reflexivity | lia]. }
  split; [exact Hconsider|]. split.
  - intros cb enabled. unfold useAIRecommendation.
    destruct enabled; cbn [negb]; [|reflexivity].
    cbn zeta. rewrite Hconsider. reflexivity.
  - intros Hbudget. unfold calculateBidRecommendation, estimateAfterBudgetCap.
    rewrite Hnat. rewrite bool_decide_eq_true_2 by reflexivity.
    assert (Ho : calculateOverseasMultiplier ts allPlayers = 0%Q).
    { unfold calculateOverseasMultiplier. cbn zeta.
      destruct (_ <=? 0) eqn:E; [reflexivity|].
      cbn in Hfull. cbn in E. lia. }
    rewrite Ho. cbn [recommendedMaxBid].
    assert (Hcap : (0 <= inject_Z (calculateBudgetCap ts))%Q)
      by (rewrite <- (Zle_Qle 0); apply calculateBudgetCap_nonneg, Hbudget).
    rewrite (fmul_zero_r _ 0) by reflexivity.
    unfold Math_min.
    replace (Qle_bool 0 (inject_Z (calculateBudgetCap ts))) with true
      by (symmetry; apply Qle_bool_iff; exact Hcap).
    reflexivity.
Qed.

Lemma full_overseas_quota_vetoes_the_player_witness :
  shouldConsiderPlayer overseas_batter (full_of_batters 500) eight_batters
  = {| shouldBid := false; reason_text := "No overseas slots available" |}.
Proof.
  refine (proj1 (full_overseas_quota_vetoes_the_player overseas_batter
            (full_of_batters 500) eight_batters _ _)).
  - reflexivity.
  - vm_compute. discriminate.
Defined.

(** ** Catalog ids *)

Lemma pretty_N_char_is_digit (d : N) :
  (d < 10)%N ->
  is_digit (pretty_N_char d) = true /\ digit_value (pretty_N_char d) = d.
Proof.
  intros Hd.
  assert (d = 0 \/ d = 1 \/ d = 2 \/ d = 3 \/ d = 4 \/ d = 5 \/ d = 6
          \/ d = 7 \/ d = 8 \/ d = 9)%N as Hcases by lia.
  repeat (destruct Hcases as [->|Hcases]; [split; reflexivity|]).
  subst d. split; reflexivity.
Qed.

Lemma pretty_N_go_all_digits (x : N) :
  forall s, all_digits s = true -> all_digits (pretty_N_go x s) = true.
Proof.
  induction (N.lt_wf_0 x) as [x _ IH]; intros s Hs.
  destruct (decide (x = 0)%N) as [->|Hx]; [exact Hs|].
  rewrite pretty_N_go_step by lia.
  apply IH; [apply N.div_lt; lia|].
  cbn. rewrite Hs, andb_true_r.
  apply pretty_N_char_is_digit, N.mod_lt. lia.
Qed.

Lemma pretty_N_go_parse (x : N) :
  forall s, parse_digits_from 0 (pretty_N_go x s) = parse_digits_from x s.
Proof.
  induction (N.lt_wf_0 x) as [x _ IH]; intros s.
  destruct (decide (x = 0)%N) as [->|Hx]; [reflexivity|].
  rewrite pretty_N_go_step by lia.
  rewrite IH by (apply N.div_lt; lia).
  cbn [parse_digits_from]. f_equal.
  rewrite (proj2 (pretty_N_char_is_digit (x `mod` 10) ltac:(apply N.mod_lt; lia))).
  symmetry. apply N.div_mod. lia.
Qed.

Lemma pretty_N_go_nonempty (x : N) (s : string) :
  (0 < x)%N -> pretty_N_go x s <> EmptyString.
Proof.
  revert s. induction (N.lt_wf_0 x) as [x _ IH]; intros s Hx.
  rewrite pretty_N_go_step by lia.
  destruct (decide (x `div` 10 = 0)%N) as [->|Hd].
  - rewrite pretty_N_go_0. discriminate.
  - apply IH; [apply N.div_lt; lia | apply N.neq_0_lt_0, Hd].
Qed.

Lemma pretty_N_digits (n : N) :
  all_digits (pretty n) = true
  /\ pretty n <> EmptyString
  /\ parseInt10 (pretty n) = n.
Proof.
  unfold pretty, pretty_N. destruct (decide (n = 0)%N) as [->|Hn].
  - repeat split. discriminate.
  - split; [apply pretty_N_go_all_digits; reflexivity|].
    split; [apply pretty_N_go_nonempty; lia|].
    unfold parseInt10. rewrite pretty_N_go_parse. reflexivity.
Qed.

Lemma trailing_digits_all (s : string) :
  all_digits s = true -> trailing_digits s = s.
Proof. destruct s as [|c s]; [reflexivity|]. cbn. intros ->. reflexivity. Qed.

Lemma trailing_digits_after_non_digit (c : Ascii.ascii) (s : string) :
  is_digit c = false -> trailing_digits (String c s) = trailing_digits s.
Proof. intros H. cbn. rewrite H. reflexivity. Qed.

Lemma trailing_digits_is_suffix (s : string) :
  all_digits (trailing_digits s) = true
  /\ exists prefix,
       s = prefix +:+ trailing_digits s /\ ends_without_digit prefix.
Proof.
  induction s as [|c s [IHd (prefix & IHp & IHmax)]].
  - split; [reflexivity|]. exists EmptyString. split; [reflexivity|].
    left. reflexivity.
  - cbn [trailing_digits]. destruct (all_digits (String c s)) eqn:E.
    + split; [exact E|]. exists EmptyString. split; [reflexivity|].
      left. reflexivity.
    + split; [exact IHd|]. exists (String c prefix). split.
      * change (String c s = String c (prefix +:+ trailing_digits s)).
        f_equal. exact IHp.
      * right. destruct IHmax as [-> | (before & c' & -> & Hc')].
        -- exists EmptyString, c. split; [reflexivity|].
           change (s = trailing_digits s) in IHp. rewrite <- IHp in IHd.
           cbn in E. rewrite IHd, andb_true_r in E. exact E.
        -- exists (String c before), c'. split; [reflexivity | exact Hc'].
Qed.

Lemma all_digits_with_non_digit (prefix : string) (c : Ascii.ascii) (d : string) :
  is_digit c = false -> all_digits (prefix +:+ String c d) = false.
Proof.
  intros Hc. induction prefix as [|a prefix IH].
  - change (is_digit c && all_digits d = false). rewrite Hc. reflexivity.
  - change (is_digit a && all_digits (prefix +:+ String c d) = false).
    rewrite IH. apply andb_false_r.
Qed.

Lemma trailing_digits_after_separator
    (prefix : string) (c : Ascii.ascii) (d : string) :
  is_digit c = false -> all_digits d = true ->
  trailing_digits (prefix +:+ String c d) = d.
Proof.
  intros Hc Hd. induction prefix as [|a prefix IH].
  - change (trailing_digits (String c d) = d).
    rewrite trailing_digits_after_non_digit by exact Hc.
    apply trailing_digits_all, Hd.
  - change (trailing_digits (String a (prefix +:+ String c d)) = d).
    cbn [trailing_digits].
    change (all_digits (String a (prefix +:+ String c d)))
      with (all_digits (String a prefix +:+ String c d)).
    rewrite all_digits_with_non_digit by exact Hc. exact IH.
Qed.

Lemma string_append_assoc (s1 s2 s3 : string) :
  (s1 +:+ s2) +:+ s3 = s1 +:+ s2 +:+ s3.
Proof.
  induction s1 as [|c s1 IH]; [reflexivity|].
  change (String c ((s1 +:+ s2) +:+ s3) = String c (s1 +:+ s2 +:+ s3)).
  f_equal. exact IH.
Qed.

Lemma extractNumericId_maximal_run (prefix digits : string) :
  ends_without_digit prefix ->
  digits <> EmptyString ->
  all_digits digits = true ->
  extractNumericId (prefix +:+ digits) = inl (parseInt10 digits).
Proof.
  intros Hmax Hne Hdigits. unfold extractNumericId.
  assert (Ht : trailing_digits (prefix +:+ digits) = digits).
  { destruct Hmax as [-> | (before & c & -> & Hc)].
    - apply trailing_digits_all, Hdigits.
    - rewrite string_append_assoc.
      change (String c EmptyString +:+ digits) with (String c digits).
      apply trailing_digits_after_separator; assumption. }
  rewrite Ht. destruct digits; [congruence | reflexivity].
Qed.

Lemma Number_toString_digits (n : Z) :
  exists digits,
    Number_toString n
    = (if n <? 0 then "-" else "") +:+ digits
    /\ digits <> EmptyString
    /\ all_digits digits = true
    /\ parseInt10 digits = Z.to_N (Z.abs n).
Proof.
  unfold Number_toString, pretty, pretty_Z.
  destruct n as [|x|x].
  - exists "0". repeat split. discriminate.
  - destruct (pretty_N_digits (Npos x)) as (Hdigits & Hne & Hparse).
    exists (pretty (Npos x)). repeat split; assumption.
  - destruct (pretty_N_digits (Npos x)) as (Hdigits & Hne & Hparse).
    exists (pretty (Npos x)). repeat split; assumption.
Qed.

(** What is read back from a catalog id is the magnitude of the backend
    id. *)
Lemma extractNumericId_player_id (dto : PlayerDto) :
  extractNumericId (player_id (transformPlayer dto))
  = inl (Z.to_N (Z.abs (dto_id dto))).
Proof.
  unfold transformPlayer. cbn [player_id].
  destruct (Number_toString_digits (dto_id dto))
    as (digits & -> & Hne & Hdigits & <-).
  destruct (dto_id dto <? 0).
  - change ("player-" +:+ "-" +:+ digits) with ("player--" +:+ digits).
    apply extractNumericId_maximal_run; [|assumption..].
    right. exists "player-", (Ascii.ascii_of_nat 45).
    split; reflexivity.
  - change ("player-" +:+ "" +:+ digits) with ("player-" +:+ digits).
    apply extractNumericId_maximal_run; [|assumption..].
    right. exists "player", (Ascii.ascii_of_nat 45).
    split; reflexivity.
Qed.

(** X27. [extractNumericId] reads the longest run of decimal digits that
    ends the string.  On a string made of a part that is empty or ends in a
    non-digit, followed by a non-empty run of digits, it returns the number
    the run denotes (the run is the whole match, so "12ab34" gives 34 and
    "player-007" gives 7); every string it succeeds on has this form.  On
    the empty string and on any string that ends in a non-digit it fails
    with "Invalid ID format: " followed by the string. *)
Theorem extractNumericId_needs_trailing_digit :
  (forall prefix digits,
     ends_without_digit prefix ->
     digits <> EmptyString ->
     all_digits digits = true ->
     (parseInt10 digits <= Z.to_N MAX_SAFE_INTEGER)%N ->
     extractNumericId (prefix +:+ digits) = inl (parseInt10 digits))
  /\ (forall s n,
        extractNumericId s = inl n ->
        exists prefix digits,
          s = prefix +:+ digits /\ ends_without_digit prefix
          /\ digits <> EmptyString /\ all_digits digits = true)
  /\ (forall prefix c,
        is_digit c = false ->
        extractNumericId (prefix +:+ String c EmptyString)
        = inr ("Invalid ID format: " +:+ prefix +:+ String c EmptyString))
  /\ extractNumericId EmptyString = inr "Invalid ID format: ".
Proof.
  split; [|split; [|split; [|reflexivity]]].
  - intros prefix digits Hmax Hne Hdigits _.
    apply extractNumericId_maximal_run; assumption.
  - intros s n Hn. unfold extractNumericId in Hn.
    destruct (trailing_digits_is_suffix s) as (Hdigits & prefix & Hs & Hmax).
    destruct (trailing_digits s) as [|c rest] eqn:E; [discriminate Hn|].
    exists prefix, (String c rest).
    repeat split; [exact Hs | exact Hmax | discriminate | exact Hdigits].
  - intros prefix c Hc. unfold extractNumericId.
    rewrite trailing_digits_after_separator by (exact Hc || reflexivity).
    reflexivity.
Qed.

Lemma extractNumericId_needs_trailing_digit_witness :
  extractNumericId "12ab34" = inl 34%N
  /\ extractNumericId "player-007" = inl 7%N.
Proof.
  split.
  - refine (proj1 extractNumericId_needs_trailing_digit "12ab" "34" _ _ _ _).
    + right. exists "12a", (Ascii.ascii_of_nat 98). split; reflexivity.
    + discriminate.
    + reflexivity.
    + vm_compute. discriminate.
  - refine (proj1 extractNumericId_needs_trailing_digit "player-" "007"
              _ _ _ _).
    + right. exists "player", (Ascii.ascii_of_nat 45). split; reflexivity.
    + discriminate.
    + reflexivity.
    + vm_compute. discriminate.
Defined.

(** X26. Player ids round-trip for the ids a backend can issue: for an id
    between 0 and [MAX_SAFE_INTEGER], the numeric id [extractNumericId]
    reads back from the id [transformPlayer] builds is the backend id.  A
    negative id comes back without its sign.  Players with distinct backend
    ids of magnitude up to [MAX_SAFE_INTEGER] get distinct catalog ids. *)
Theorem player_id_round_trip :
  (forall dto,
     0 <= dto_id dto <= MAX_SAFE_INTEGER ->
     extractNumericId (player_id (transformPlayer dto))
     = inl (Z.to_N (dto_id dto)))
  /\ (forall dto,
        - MAX_SAFE_INTEGER <= dto_id dto < 0 ->
        extractNumericId (player_id (transformPlayer dto))
        = inl (Z.to_N (- dto_id dto)))
  /\ (forall dtos,
        Forall (fun dto => - MAX_SAFE_INTEGER <= dto_id dto
                           <= MAX_SAFE_INTEGER) dtos ->
        NoDup (map dto_id dtos) ->
        NoDup (map player_id (map transformPlayer dtos))).
Proof.
  split; [|split].
  - intros dto [Hlo _]. rewrite extractNumericId_player_id.
    rewrite Z.abs_eq by exact Hlo. reflexivity.
  - intros dto [_ Hneg]. rewrite extractNumericId_player_id.
    rewrite Z.abs_neq by lia. reflexivity.
  - intros dtos _ Hnd. rewrite map_map.
    induction dtos as [|d dtos IH]; cbn; [constructor|].
    cbn in Hnd. apply NoDup_cons in Hnd as [Hnotin Hnd].
    apply NoDup_cons. split; [|apply IH, Hnd].
    intros Hin. apply Hnotin.
    apply list_elem_of_In, in_map_iff in Hin as (d' & Heq & Hin).
    apply list_elem_of_In, in_map_iff. exists d'. split; [|exact Hin].
    unfold transformPlayer, Number_toString in Heq. cbn [player_id] in Heq.
    apply (inj (String.append "player-")) in Heq.
    apply (inj pretty) in Heq. exact Heq.
Qed.

Lemma player_id_round_trip_witness :
  extractNumericId (player_id (transformPlayer sample_dto)) = inl 42%N
  /\ player_id (transformPlayer sample_dto) = "player-42".
Proof.
  split; [|reflexivity].
  refine (proj1 player_id_round_trip sample_dto _).
  vm_compute. split; discriminate.
Defined.

(** Outside that range the sign is lost. *)
Example negative_id_comes_back_positive :
  let dto := mkPlayerDto (-5) "R. Sharma" BATTER DOMESTIC 200
               (mkPlayerStatsDto None None None None None) in
  player_id (transformPlayer dto) = "player--5"
  /\ extractNumericId (player_id (transformPlayer dto)) = inl 5%N.
Proof. vm_compute. split; reflexivity. Qed.

(** ** Players still to be auctioned *)

(** X28. A player who has been auctioned does not come back: the list of
    remaining players never gains a player over a run, and once a round ends
    (expiry, pass, or explicit sale with a bid) no player with the id of the
    auctioned player is in it. *)
Theorem completed_players_stay_out
    (players : list Player) (s : AuctionState) (actions : list AuctionAction) :
  (forall p, In p (remainingPlayers players (dispatchAll s actions)) ->
             In p (remainingPlayers players s))
  /\ (forall b a p,
        s = BiddingState b ->
        a = TIME_EXPIRED \/ a = PLAYER_UNSOLD
        \/ (a = PLAYER_SOLD /\ currentBid b <> None) ->
        player_id p = player_id (currentPlayer b) ->
        ~ In p (remainingPlayers players (dispatchAll s (a :: actions)))).
Proof.
  assert (Hshrink : forall s actions p,
    In p (remainingPlayers players (dispatchAll s actions)) ->
    In p (remainingPlayers players s)).
  { clear. intros s actions p Hin. unfold remainingPlayers in *.
    apply filter_In in Hin as [Hin Hout]. apply filter_In.
    split; [exact Hin|].
    apply negb_true_iff, bool_decide_eq_false in Hout.
    apply negb_true_iff, bool_decide_eq_false. intros Hdone. apply Hout.
    destruct (dispatchAll_history_prefix s actions) as [k ->].
    apply elem_of_app. left. exact Hdone. }
  split; [apply Hshrink|].
  intros b a p -> Ha Hid Hin.
  change (dispatchAll (BiddingState b) (a :: actions))
    with (dispatchAll (auctionReducer (BiddingState b) a) actions) in Hin.
  apply Hshrink in Hin. unfold remainingPlayers in Hin.
  apply filter_In in Hin as [_ Hout].
  apply negb_true_iff, bool_decide_eq_false in Hout. apply Hout.
  rewrite Hid. unfold auctionReducer.
  destruct Ha as [-> | [-> | [-> Hbid]]]; cbn;
    destruct (currentBid b); cbn; try congruence;
    apply elem_of_app; right; apply list_elem_of_singleton; reflexivity.
Qed.

Lemma completed_players_stay_out_witness :
  In sample_player
     (remainingPlayers [ sample_player; overseas_batter ]
        (BiddingState (sample_bidding None [])))
  /\ ~ In sample_player
        (remainingPlayers [ sample_player; overseas_batter ]
           (dispatchAll (BiddingState (sample_bidding None []))
              [ TIME_EXPIRED; RESET_TO_IDLE ])).
Proof.
  split; [left; reflexivity|].
  refine (proj2 (completed_players_stay_out
            [ sample_player; overseas_batter ]
            (BiddingState (sample_bidding None [])) [ RESET_TO_IDLE ])
            (sample_bidding None []) TIME_EXPIRED sample_player _ _ _).
  - reflexivity.
  - left. reflexivity.
  - reflexivity.
Defined.

(** ** The squad summary *)

Lemma roleBreakdown_lookup ts allPlayers c r :
  roleBreakdown (getSquadSummary ts allPlayers c) !! r
  = Some {| rb_current :=
              role_count (countPlayersByRole (squad ts) allPlayers) r;
            rb_min := role_min (roleConstraints c r);
            rb_max := role_max (roleConstraints c r) |}.
Proof.
  unfold getSquadSummary. cbn.
  destruct r;
    repeat (rewrite lookup_insert_ne by discriminate);
    rewrite lookup_insert_eq; reflexivity.
Qed.

(** The record [getSquadSummary] builds does not depend on the key order of
    the constraints: whatever order lists the four roles gives the record
    that [role_entries] gives. *)
Lemma roleBreakdown_any_key_order
    (roleCount : gmap PlayerRole Z) (c : SquadConstraints)
    (keys : list PlayerRole) :
  (forall r, In r keys) ->
  let step := fun (breakdown : gmap PlayerRole RoleBreakdown)
                  (entry : PlayerRole * RoleLimit) =>
    <[ entry.1 := {| rb_current := default 0 (roleCount !! entry.1);
                     rb_min := role_min entry.2;
                     rb_max := role_max entry.2 |} ]> breakdown in
  fold_left step (Object_entries keys c) ∅
  = fold_left step (role_entries c) ∅.
Proof.
  intros Hall step.
  assert (Hlookup : forall ks (m : gmap PlayerRole RoleBreakdown) r,
            fold_left step (Object_entries ks c) m !! r
            = if bool_decide (r ∈ ks)
              then Some {| rb_current := default 0 (roleCount !! r);
                           rb_min := role_min (roleConstraints c r);
                           rb_max := role_max (roleConstraints c r) |}
              else m !! r).
  { induction ks as [|k ks IH]; intros m r; [reflexivity|].
    cbn [Object_entries map fold_left]. fold (Object_entries ks c).
    rewrite IH. unfold step at 1. cbn [fst snd].
    destruct (bool_decide (r ∈ ks)) eqn:E.
    - apply bool_decide_eq_true in E.
      rewrite bool_decide_eq_true_2 by (apply elem_of_cons; right; exact E).
      reflexivity.
    - apply bool_decide_eq_false in E.
      destruct (decide (k = r)) as [->|Hne].
      + rewrite bool_decide_eq_true_2
          by (apply elem_of_cons; left; reflexivity).
        apply lookup_insert_eq.
      + rewrite bool_decide_eq_false_2
          by (intros [?|?]%elem_of_cons; [congruence|tauto]).
        apply lookup_insert_ne, Hne. }
  apply map_eq. intros r.
  change (role_entries c)
    with (Object_entries [ batter; bowler; all_rounder; wicket_keeper ] c).
  rewrite !Hlookup.
  rewrite bool_decide_eq_true_2 by (apply list_elem_of_In, Hall).
  rewrite bool_decide_eq_true_2
    by (apply list_elem_of_In; destruct r; cbn; tauto).
  reflexivity.
Qed.

(** X29. The squad summary is consistent: its role breakdown has an entry
    for each of the four roles with a count of at least 0, the counts add up
    to at most [totalPlayers], the overseas count lies between 0 and
    [totalPlayers], and [budgetUsed] is the sum of the purchase prices. *)
Theorem squad_summary_is_consistent
    (ts : TeamState) (allPlayers : list Player) (c : SquadConstraints) :
  let summary := getSquadSummary ts allPlayers c in
  let current := fun r =>
    match roleBreakdown summary !! r with
    | Some entry => rb_current entry
    | None => -1
    end in
  (forall r, 0 <= current r)
  /\ current batter + current bowler + current all_rounder
     + current wicket_keeper <= totalPlayers summary
  /\ 0 <= overseasCount summary <= totalPlayers summary
  /\ budgetUsed summary = foldr Z.add 0 (map purchasePrice (squad ts)).
Proof.
  cbn zeta.
  pose proof (countPlayersByRole_nonneg (squad ts) allPlayers) as Hpos.
  pose proof (countPlayersByRole_total (squad ts) allPlayers) as Htotal.
  unfold role_count_total in Htotal.
  pose proof (countOverseasPlayers_le_resolved (squad ts) allPlayers)
    as Hoverseas.
  pose proof (resolved_entries_length (squad ts) allPlayers) as Hlen.
  split; [|split; [|split]].
  - intros r. rewrite roleBreakdown_lookup. cbn. apply Hpos.
  - rewrite !roleBreakdown_lookup. cbn [rb_current totalPlayers getSquadSummary].
    rewrite Htotal. lia.
  - cbn [overseasCount totalPlayers getSquadSummary]. lia.
  - cbn [budgetUsed getSquadSummary].
    assert (H : forall sq z,
      fold_left (fun sum p => sum + purchasePrice p) sq z
      = z + foldr Z.add 0 (map purchasePrice sq)).
    { induction sq as [|a sq IH]; intros z; cbn; [lia|]. rewrite IH. lia. }
    rewrite H. lia.
Qed.
